(** * Option-Critic trainer (Algorithms/option_critic/option_critic.py)

    A shallow embedding of the [OptionCritic] class: the epsilon schedule,
    the polyak update of the target network, the loss computation of
    [sac_update], checkpoint loading, the training loop
    [learn_one_trial] and the test entry points.

    Conventions.
    - Python and torch floating-point numbers are idealised as real numbers
      ([R]); [-np.inf] is the extra point [NegInf] of [ExtR].
    - Python integers are [Z]; option indices (torch long tensors used as
      indices) are [nat].
    - A torch tensor of rank one is a [list R], a [batch x num_options]
      matrix is a [list (list R)].  Elementwise operations on two tensors
      need equal lengths and raise [RuntimeError] otherwise (broadcasting of
      unequal shapes is not modelled).
    - Parameters of the two networks live in a store indexed by object
      identity, so that [deepcopy], in-place updates and the parameter list
      held by the optimizer alias exactly as they do in Python.
    - Methods of [self] are functions in a state-and-exception monad over
      the record [Trainer]. *)

From Stdlib Require Import Reals Lra Lia ZArith Ascii String.
From stdpp Require Import base option list gmap strings pretty.

Open Scope R_scope.

(** ** Part I.  Definitions *)

(** *** Python exceptions and the two monads

    [CollaboratorError] stands for whatever a collaborator raises;
    [OutOfFuel] is no Python exception: it is the answer of a [while] loop
    of the embedding whose iteration bound is used up. *)

Inductive exn : Type :=
| AttributeError (name : string)
| KeyError
| IndexError
| ZeroDivisionError
| RuntimeError (msg : string)
| OSError (msg : string)
| CollaboratorError (who : string)
| OutOfFuel.

Inductive result (A : Type) : Type :=
| Ok (a : A)
| Raise (e : exn).
Arguments Ok {A} a.
Arguments Raise {A} e.

#[global] Instance result_ret : MRet result := fun A a => Ok a.
#[global] Instance result_bind : MBind result := fun A B f m =>
  match m with
  | Ok a => f a
  | Raise e => Raise e
  end.

(** *** Numbers *)

(** [-np.inf] and the finite floats. *)
Inductive ExtR : Type :=
| NegInf
| Fin (r : R).

Definition Rltb (x y : R) : bool := if Rlt_dec x y then true else false.
Definition Rleb (x y : R) : bool := if Rle_dec x y then true else false.

(** [a > b] on floats that may be [-inf]. *)
Definition ExtR_gtb (a b : ExtR) : bool :=
  match a, b with
  | NegInf, _ => false
  | Fin _, NegInf => true
  | Fin x, Fin y => Rltb y x
  end.

(** [a >= b]. *)
Definition ExtR_geb (a b : ExtR) : bool :=
  match a, b with
  | _, NegInf => true
  | NegInf, Fin _ => false
  | Fin x, Fin y => Rleb y x
  end.

(** *** Rank-one tensors *)

Definition sum_list (v : list R) : R := foldr Rplus 0 v.

(** [t.mean()] *)
Definition mean (v : list R) : R := sum_list v / INR (length v).

(** [c - t] and [t * c] with a Python scalar [c]. *)
Definition rsub_scalar (c : R) (t : list R) : list R := (fun x => c - x) <$> t.
Definition mul_scalar (t : list R) (c : R) : list R := (fun x => x * c) <$> t.
Definition scalar_mul (c : R) (t : list R) : list R := (fun x => c * x) <$> t.
Definition add_scalar (t : list R) (c : R) : list R := (fun x => x + c) <$> t.

(** Elementwise binary operation of two tensors of the same shape. *)
Definition elementwise (f : R -> R -> R) (a b : list R) : result (list R) :=
  if decide (length a = length b) then Ok (zip_with f a b)
  else Raise (RuntimeError "The size of tensor a must match the size of tensor b").

Definition tadd := elementwise Rplus.
Definition tsub := elementwise Rminus.
Definition tmul := elementwise Rmult.
Definition tmin := elementwise Rmin.

(** [t ** 2] *)
Definition square (t : list R) : list R := (fun x => x * x) <$> t.

(** [t.detach()]: the same values, cut from the autograd graph. *)
Definition detach (t : list R) : list R := t.

(** [m.max(dim=-1).values]: the maximum of each row; a row without entries
    has no maximum. *)
Definition row_max (row : list R) : result R :=
  match row with
  | [] => Raise IndexError
  | x :: xs => Ok (foldl Rmax x xs)
  end.

Definition max_last_dim (m : list (list R)) : result (list R) := mapM row_max m.

(** [m[batch_idx, options]] with [batch_idx = arange(len(options))]: entry
    [options[i]] of row [i]. *)
Definition index_pair (m : list (list R)) (i o : nat) : result R :=
  match m !! i with
  | None => Raise IndexError
  | Some row =>
      match row !! o with
      | None => Raise IndexError
      | Some x => Ok x
      end
  end.

Definition arange (n : nat) : list nat := seq 0 n.

Definition gather (m : list (list R)) (batch_idx options : list nat) : result (list R) :=
  if decide (length batch_idx = length options)
  then mapM (fun io => index_pair m io.1 io.2) (zip batch_idx options)
  else Raise IndexError.

(** *** The targets in the words of the specification

    [utility = (1 - beta) * Q'_omega + beta * V'_omega],
    [target = reward + (1 - terminal) * gamma * utility] and the summand of
    the termination loss, one transition at a time. *)
Definition utility_of (beta q_omega v_omega : R) : R :=
  (1 - beta) * q_omega + beta * v_omega.

Definition bootstrap_target (gamma reward terminal utility : R) : R :=
  reward + (1 - terminal) * gamma * utility.

Definition termination_term (reg beta q1 q2 v1 v2 terminal : R) : R :=
  beta * (Rmin q1 q2 - Rmin v1 v2 + reg) * (1 - terminal).

(** *** Parameters and the object store *)

(** A [torch.nn.Parameter]: its [.data] and its [requires_grad] flag. *)
Record Param : Type := mkParam {
  p_data : list R;
  requires_grad : bool
}.

#[global] Instance Param_inhabited : Inhabited Param := populate (mkParam [] false).

(** A network object: the identities of its parameters, in the order of
    [parameters()], and its train/eval mode. *)
Record Net : Type := mkNet {
  net_params : list nat;
  net_training : bool
}.

(** Values recorded through [logger.store]. *)
Inductive logval : Type :=
| LFloat (x : R)
| LInt (n : Z)
| LBoundMethod (name : string)
| LOptLen (d : gmap nat (list Z)).

(** *** Collaborators

    The environment, the network module [OptionCriticVAE], the optimizer,
    the logger and the random generator are used through their interfaces
    only; their code is not part of the class.  Network calls take the
    current parameter values, the train/eval mode and the random state. *)
Class Collaborators : Type := {
  Obs : Type;
  Action : Type;
  Latent : Type;
  EnvState : Type;
  EnvJson : Type;
  Frame : Type;
  Rng : Type;
  OptState : Type;
  LoggerState : Type;
  (* gym environment behind the normalisation wrapper *)
  env_reset : EnvState -> Obs * EnvState;
  env_step : Action -> EnvState -> (Obs * R * bool) * EnvState;
  env_render : option string -> EnvState -> Frame * EnvState;
  env_set_training : bool -> EnvState -> EnvState;
  env_max_episode_steps : EnvState -> option Z;
  env_reward_threshold : EnvState -> option R;
  env_save : EnvState -> EnvJson;
  env_load : EnvState -> EnvJson -> EnvState;
  (* OptionCriticVAE *)
  num_options : nat;
  oc_construct : Rng -> list Param * Rng;
  encode_state : list (list R) -> bool -> list Obs -> Rng -> Latent * Rng;
  policies : list (list R) -> bool -> Latent -> list nat -> Rng -> (list Action * list R) * Rng;
  get_terminations : list (list R) -> bool -> list Obs -> Rng -> list (list R) * Rng;
  Q1 : list (list R) -> bool -> Latent -> Rng -> list (list R) * Rng;
  Q2 : list (list R) -> bool -> Latent -> Rng -> list (list R) * Rng;
  get_option : list (list R) -> bool -> Obs -> R -> Rng -> nat * Rng;
  get_action : list (list R) -> bool -> Obs -> nat -> Rng -> Action * Rng;
  predict_option_termination : list (list R) -> bool -> Obs -> nat -> Rng -> bool * Rng;
  (* torch optimizer: a fresh state, and the new values that
     [zero_grad(); loss.backward(); step()] gives to the parameters it holds *)
  optimizer_new : R -> OptState;
  optimizer_step : OptState -> R -> list (list R) -> list (list R) ->
                   list Obs * list nat * list R * list Obs * list R -> Rng ->
                   list (list R) * OptState;
  (* Logger *)
  logger_store : list (string * logval) -> LoggerState -> LoggerState;
  logger_load_results : list string -> LoggerState -> list R * list R;
  logger_dump : LoggerState -> LoggerState;
  logger_reset : LoggerState -> LoggerState;
  (* sampling of replay indices *)
  sample_indices : nat -> nat -> Rng -> list nat * Rng
}.

(** What the loss computation needs of the shapes of the network outputs:
    one row per element of the batch, one column per option. *)
Class ShapeLaws {C : Collaborators} : Type := {
  batch_of : Latent -> nat;
  encode_state_shape : forall W b o g,
    batch_of (encode_state W b o g).1 = length o;
  policies_shape : forall W b z opts g,
    length (policies W b z opts g).1.2 = length opts;
  get_terminations_shape : forall W b o g,
    length (get_terminations W b o g).1 = length o /\
    Forall (fun row => length row = num_options) (get_terminations W b o g).1;
  Q1_shape : forall W b z g,
    length (Q1 W b z g).1 = batch_of z /\
    Forall (fun row => length row = num_options) (Q1 W b z g).1;
  Q2_shape : forall W b z g,
    length (Q2 W b z g).1 = batch_of z /\
    Forall (fun row => length row = num_options) (Q2 W b z g).1
}.

Section Model.
Context {C : Collaborators}.

(** A batch as [sac_update] receives it:
    [obs, options, rewards, next_obs, done]. *)
Definition Experiences : Type := (list Obs * list nat * list R * list Obs * list R)%type.

(** *** Replay store *)

Record Transition : Type := mkTransition {
  t_obs : Obs;
  t_option : nat;
  t_reward : R;
  t_next_obs : Obs;
  t_done : bool
}.

(** Modelled from the spec: [ReplayBuffer] (Algorithms/option_critic/replay_buffer.py).
    An append-only ring buffer of transitions, bounded by its capacity; the
    oldest transition is evicted first; a new buffer holds nothing. *)
Record ReplayBuffer : Type := mkReplayBuffer {
  rb_capacity : Z;
  rb_memory : list Transition
}.

(** Modelled from the spec: [ReplayBuffer(capacity)]. *)
Definition ReplayBuffer_new (capacity : Z) : ReplayBuffer := mkReplayBuffer capacity [].

(** Modelled from the spec: [ReplayBuffer.size()]. *)
Definition rb_size (rb : ReplayBuffer) : Z := Z.of_nat (length (rb_memory rb)).

(** Modelled from the spec: [ReplayBuffer.append(obs, option, reward, next_obs, terminal)]. *)
Definition rb_append (tr : Transition) (rb : ReplayBuffer) : ReplayBuffer :=
  let mem := rb_memory rb ++ [tr] in
  mkReplayBuffer (rb_capacity rb)
    (drop (Z.to_nat (Z.of_nat (length mem) - rb_capacity rb)) mem).

Definition done_to_float (d : bool) : R := if d then 1 else 0.

(** Modelled from the spec: the batch handed out by [ReplayBuffer.sample]:
    the chosen transitions, column by column, the terminal flag as a float. *)
Definition to_experiences (trs : list Transition) : Experiences :=
  (t_obs <$> trs, t_option <$> trs, t_reward <$> trs, t_next_obs <$> trs,
   (fun tr => done_to_float (t_done tr)) <$> trs).

(** *** Files *)

Inductive File : Type :=
| WeightsFile (oc_sd oc_target_sd : list (list R)) (optimizer_sd : OptState)
| BufferFile (memory : list Transition)
| EnvFile (j : EnvJson)
| Recording (frames : list Frame).

(** [os.path.join(a, b)] on POSIX. *)
Definition ends_with_sep (a : string) : bool :=
  match String.rev a with
  | String c _ => bool_decide (c = "/"%char)
  | EmptyString => false
  end.

Definition starts_with_sep (b : string) : bool :=
  match b with
  | String c _ => bool_decide (c = "/"%char)
  | EmptyString => false
  end.

Definition path_join (a b : string) : string :=
  if starts_with_sep b then b
  else if bool_decide (a = EmptyString) || ends_with_sep a then (a ++ b)%string
  else (a ++ "/" ++ b)%string.

(** *** The trainer *)

(** The keyword arguments of [__init__] stored on [self] and never
    reassigned; [max_ep_len] is the value [__init__] derives. *)
Record Config : Type := mkConfig {
  gamma : R;
  eps_start : R;
  eps_end : R;
  eps_decay : R;
  lr : R;
  batch_size : Z;
  update_every : Z;
  termination_reg : R;
  entropy_reg : R;
  polyak : R;
  max_ep_len : Z;
  replay_size : Z;
  save_freq : Z;
  save_dir : string;
  ngpu : Z
}.

(** A torch optimizer: the parameters it was built over and its own state. *)
Record Optimizer : Type := mkOptimizer {
  opt_params : list nat;
  opt_state : OptState
}.

(** [self], together with the part of the process its methods act on
    (the object store with its allocation counter, the random generator
    and the file system). *)
Record Trainer : Type := mkTrainer {
  cfg : Config;
  logger : LoggerState;
  env : EnvState;
  oc : Net;
  oc_targ : Net;
  replay_buffer : ReplayBuffer;
  optimizer : Optimizer;
  best_mean_reward : ExtR;
  heap : gmap nat Param;
  next_id : nat;
  rng : Rng;
  fs : gmap string File
}.

Definition set_logger (x : LoggerState) (s : Trainer) : Trainer :=
  mkTrainer (cfg s) x (env s) (oc s) (oc_targ s) (replay_buffer s) (optimizer s)
    (best_mean_reward s) (heap s) (next_id s) (rng s) (fs s).
Definition set_env (x : EnvState) (s : Trainer) : Trainer :=
  mkTrainer (cfg s) (logger s) x (oc s) (oc_targ s) (replay_buffer s) (optimizer s)
    (best_mean_reward s) (heap s) (next_id s) (rng s) (fs s).
Definition set_oc (x : Net) (s : Trainer) : Trainer :=
  mkTrainer (cfg s) (logger s) (env s) x (oc_targ s) (replay_buffer s) (optimizer s)
    (best_mean_reward s) (heap s) (next_id s) (rng s) (fs s).
Definition set_oc_targ (x : Net) (s : Trainer) : Trainer :=
  mkTrainer (cfg s) (logger s) (env s) (oc s) x (replay_buffer s) (optimizer s)
    (best_mean_reward s) (heap s) (next_id s) (rng s) (fs s).
Definition set_replay_buffer (x : ReplayBuffer) (s : Trainer) : Trainer :=
  mkTrainer (cfg s) (logger s) (env s) (oc s) (oc_targ s) x (optimizer s)
    (best_mean_reward s) (heap s) (next_id s) (rng s) (fs s).
Definition set_optimizer (x : Optimizer) (s : Trainer) : Trainer :=
  mkTrainer (cfg s) (logger s) (env s) (oc s) (oc_targ s) (replay_buffer s) x
    (best_mean_reward s) (heap s) (next_id s) (rng s) (fs s).
Definition set_best_mean_reward (x : ExtR) (s : Trainer) : Trainer :=
  mkTrainer (cfg s) (logger s) (env s) (oc s) (oc_targ s) (replay_buffer s) (optimizer s)
    x (heap s) (next_id s) (rng s) (fs s).
Definition set_heap (x : gmap nat Param) (s : Trainer) : Trainer :=
  mkTrainer (cfg s) (logger s) (env s) (oc s) (oc_targ s) (replay_buffer s) (optimizer s)
    (best_mean_reward s) x (next_id s) (rng s) (fs s).
Definition set_next_id (x : nat) (s : Trainer) : Trainer :=
  mkTrainer (cfg s) (logger s) (env s) (oc s) (oc_targ s) (replay_buffer s) (optimizer s)
    (best_mean_reward s) (heap s) x (rng s) (fs s).
Definition set_rng (x : Rng) (s : Trainer) : Trainer :=
  mkTrainer (cfg s) (logger s) (env s) (oc s) (oc_targ s) (replay_buffer s) (optimizer s)
    (best_mean_reward s) (heap s) (next_id s) x (fs s).
Definition set_fs (x : gmap string File) (s : Trainer) : Trainer :=
  mkTrainer (cfg s) (logger s) (env s) (oc s) (oc_targ s) (replay_buffer s) (optimizer s)
    (best_mean_reward s) (heap s) (next_id s) (rng s) x.

(** Methods: state and exceptions.  A raised exception keeps the state
    reached so far, as the mutations made before a Python [raise] stay. *)
Definition M (A : Type) : Type := Trainer -> result A * Trainer.

#[global] Instance M_ret : MRet M := fun A a s => (Ok a, s).
#[global] Instance M_bind : MBind M := fun A B f m s =>
  match m s with
  | (Ok a, s') => f a s'
  | (Raise e, s') => (Raise e, s')
  end.
Definition raise {A} (e : exn) : M A := fun s => (Raise e, s).
Definition get : M Trainer := fun s => (Ok s, s).
Definition modify (f : Trainer -> Trainer) : M unit := fun s => (Ok tt, f s).
Definition lift {A} (r : result A) : M A := fun s => (r, s).


(** *** update_epsilon *)

Definition update_epsilon (self : Trainer) (eps : R) (timestep : R) : R :=
  let eps := eps_end (cfg self) + (eps_start (cfg self) - eps_end (cfg self))
                                  * exp (- timestep / eps_decay (cfg self)) in
  eps.

(** *** Attribute lookup on [self]

    The class has no base class and no [__getattr__]: an attribute of
    [self] is a method of the class or a field assigned in [__init__]. *)
Definition OptionCritic_methods : list string :=
  ["__init__"; "reinit_network"; "update_target_network"; "sac_update";
   "evaluate_agent"; "save_weights"; "load_weights"; "update_epsilon";
   "learn_one_trial"; "learn"; "test"]%string.

Definition OptionCritic_fields : list string :=
  ["logger"; "device"; "env"; "act_limit"; "act_dim"; "ngpu"; "option_critic";
   "oc_kwargs"; "oc"; "oc_targ"; "replay_size"; "replay_buffer";
   "optimizer_class"; "lr"; "optimizer"; "gamma"; "eps_start"; "eps_end";
   "eps_decay"; "batch_size"; "update_every"; "termination_reg"; "max_ep_len";
   "polyak"; "entropy_reg"; "save_freq"; "save_dir"; "best_mean_reward"]%string.

Definition has_attr (name : string) : bool :=
  bool_decide (name ∈ OptionCritic_fields ++ OptionCritic_methods).

(** [self.<name>] for a name that no statement of the class assigns: the
    lookup raises [AttributeError]; were the attribute there, what it does
    would be the business of whoever put it there. *)
Definition getattr (name : string) : M unit :=
  if has_attr name then mret tt else raise (AttributeError name).

Definition undefined_attr {A} (name : string) : M A :=
  getattr name;; raise (CollaboratorError name).

(** *** Object store *)

Definition read_data (h : gmap nat Param) (id : nat) : list R := p_data (h !!! id).

(** The values of [net.parameters()]. *)
Definition weights (h : gmap nat Param) (net : Net) : list (list R) :=
  read_data h <$> net_params net.

(** Allocation of new parameter objects. *)
Fixpoint alloc (ps : list Param) (h : gmap nat Param) (next : nat) : list nat * gmap nat Param * nat :=
  match ps with
  | [] => ([], h, next)
  | p :: ps' =>
      let '(ids, h', next') := alloc ps' (<[next := p]> h) (S next) in
      (next :: ids, h', next')
  end.

(** [self.option_critic(...)]: a new network with new parameters. *)
Definition new_option_critic : M Net :=
  s ← get;
  let '(ps, g) := oc_construct (rng s) in
  let '(ids, h, n) := alloc ps (heap s) (next_id s) in
  modify (fun s => set_rng g (set_next_id n (set_heap h s)));;
  mret (mkNet ids true).

(** [deepcopy(net)]: new parameter objects with the same data and flags. *)
Definition deepcopy (net : Net) : M Net :=
  s ← get;
  let '(ids, h, n) := alloc ((fun id => heap s !!! id) <$> net_params net) (heap s) (next_id s) in
  modify (fun s => set_next_id n (set_heap h s));;
  mret (mkNet ids (net_training net)).

(** [for p in net.parameters(): p.requires_grad = False] *)
Definition freeze (net : Net) : M unit :=
  modify (fun s =>
    set_heap (foldl (fun h id => alter (fun p => mkParam (p_data p) false) id h)
                    (heap s) (net_params net)) s).

(** [net.train()] / [net.eval()] *)
Definition set_mode (b : bool) (net : Net) : Net := mkNet (net_params net) b.

(** [for x in l: body(x)] *)
Fixpoint for_each {A} (l : list A) (body : A -> M unit) : M unit :=
  match l with
  | [] => mret tt
  | x :: l' => body x;; for_each l' body
  end.

(** A call of a method of a network: it reads the parameter values and
    the mode of the network, and advances the random generator. *)
Definition call {A} (net : Trainer -> Net)
    (f : list (list R) -> bool -> Rng -> A * Rng) : M A :=
  s ← get;
  let '(a, g) := f (weights (heap s) (net s)) (net_training (net s)) (rng s) in
  modify (set_rng g);;
  mret a.

(** *** __init__ and reinit_network *)

(** [self] before [__init__] has run, in a process whose store is empty. *)
Definition blank (c : Config) (env0 : EnvState) (logger0 : LoggerState) (rng0 : Rng)
    (fs0 : gmap string File) : Trainer :=
  mkTrainer c logger0 env0 (mkNet [] true) (mkNet [] true) (ReplayBuffer_new 0)
    (mkOptimizer [] (optimizer_new (lr c))) NegInf ∅ 0 rng0 fs0.

(** The body of [__init__], from the creation of the network on. *)
Definition init_body : M unit :=
  net ← new_option_critic;
  modify (set_oc net);;
  targ ← deepcopy net;
  modify (set_oc_targ targ);;
  (* Freeze target networks with respect to optimizers *)
  freeze targ;;
  (* Experience buffer *)
  modify (fun s => set_replay_buffer (ReplayBuffer_new (replay_size (cfg s))) s);;
  (* Set up optimizers for actor and critic *)
  modify (fun s => set_optimizer
            (mkOptimizer (net_params (oc s)) (optimizer_new (lr (cfg s)))) s);;
  modify (set_best_mean_reward NegInf).

(** [OptionCritic(env_fn, save_dir, ...)]: [args] holds the keyword
    arguments, [env0] is the environment [env_fn()] returns. *)
Definition init (args : Config) (env0 : EnvState) (logger0 : LoggerState) (rng0 : Rng)
    (fs0 : gmap string File) : Trainer :=
  let c := mkConfig (gamma args) (eps_start args) (eps_end args) (eps_decay args)
             (lr args) (batch_size args) (update_every args) (termination_reg args)
             (entropy_reg args) (polyak args)
             (match env_max_episode_steps env0 with
              | Some n => n
              | None => max_ep_len args
              end)
             (replay_size args) (save_freq args) (save_dir args) (ngpu args) in
  (init_body (blank c env0 logger0 rng0 fs0)).2.

Definition reinit_network : M unit :=
  (* Create actor-critic module *)
  modify (set_best_mean_reward NegInf);;
  net ← new_option_critic;
  modify (set_oc net);;
  targ ← deepcopy net;
  modify (set_oc_targ targ);;
  (* Freeze target networks with respect to optimizers *)
  freeze targ;;
  (* Experience buffer *)
  modify (fun s => set_replay_buffer (ReplayBuffer_new (replay_size (cfg s))) s);;
  (* Set up optimizers for option_critic *)
  modify (fun s => set_optimizer
            (mkOptimizer (net_params (oc s)) (optimizer_new (lr (cfg s)))) s).

(** *** update_target_network *)

(** In-place tensor operations on the [.data] of a stored parameter. *)
Definition mul_ (id : nat) (c : R) : M unit :=
  modify (fun s =>
    set_heap (alter (fun q => mkParam (mul_scalar (p_data q) c) (requires_grad q)) id (heap s)) s).

Definition add_ (id : nat) (other : list R) : M unit :=
  s ← get;
  v ← lift (tadd (read_data (heap s) id) other);
  modify (fun s => set_heap (alter (fun q => mkParam v (requires_grad q)) id (heap s)) s).

Definition update_target_network : M unit :=
  s ← get;
  for_each (zip (net_params (oc s)) (net_params (oc_targ s)))
    (fun '(p, p_targ) =>
       (* NB: in-place operations "mul_", "add_" update the target params *)
       mul_ p_targ (polyak (cfg s));;
       s1 ← get;
       add_ p_targ (scalar_mul (1 - polyak (cfg s)) (read_data (heap s1) p))).

(** *** sac_update *)

(** The local variables of [sac_update] once the losses are computed. *)
Record SacLocals : Type := mkSacLocals {
  logp : list R;
  terminations : list (list R);
  next_option_term_prob : list R;
  next_Q1 : list (list R);
  next_V1_omega : list R;
  next_Q1_omega : list R;
  Q1_u : list R;
  next_Q2 : list (list R);
  next_V2_omega : list R;
  next_Q2_omega : list R;
  Q2_u : list R;
  q_pi : list R;
  policy_loss : R;
  adv : list R;
  termination_loss : R;
  loss_pi : R;
  loss_q1 : R;
  loss_q2 : R;
  loss_q : R
}.

(** [sac_update] up to the computation of the losses (the lines before
    "Update weights"). *)
Definition sac_losses (experiences : Experiences) : M SacLocals :=
  modify (fun s => set_oc (set_mode true (oc s)) s);;
  modify (fun s => set_oc_targ (set_mode true (oc_targ s)) s);;
  let '(obs, options, rewards, next_obs, done) := experiences in
  let batch_idx := arange (length options) in
  self ← get;
  states ← call oc (fun W b => encode_state W b obs);
  '(pi, logp) ← call oc (fun W b => policies W b states options);
  (* --------------------- Option Policy Loss --------------------- *)
  terms ← call oc (fun W b => get_terminations W b next_obs);
  next_option_term_prob ← lift (gather terms batch_idx options);
  next_states ← call oc_targ (fun W b => encode_state W b next_obs);
  next_Q1 ← call oc_targ (fun W b => Q1 W b next_states);
  next_V1_omega ← lift (max_last_dim next_Q1);
  next_Q1_omega ← lift (gather next_Q1 batch_idx options);
  u1a ← lift (tmul (rsub_scalar 1 next_option_term_prob) next_Q1_omega);
  u1b ← lift (tmul next_option_term_prob next_V1_omega);
  utility ← lift (tadd u1a u1b);
  b1 ← lift (tmul (mul_scalar (rsub_scalar 1 done) (gamma (cfg self))) utility);
  Q1_u ← lift (tadd rewards b1);
  next_Q2 ← call oc_targ (fun W b => Q2 W b next_states);
  next_V2_omega ← lift (max_last_dim next_Q2);
  next_Q2_omega ← lift (gather next_Q2 batch_idx options);
  u2a ← lift (tmul (rsub_scalar 1 next_option_term_prob) next_Q2_omega);
  u2b ← lift (tmul next_option_term_prob next_V2_omega);
  utility ← lift (tadd u2a u2b);
  b2 ← lift (tmul (mul_scalar (rsub_scalar 1 done) (gamma (cfg self))) utility);
  Q2_u ← lift (tadd rewards b2);
  q_pi ← lift (tmin Q1_u Q2_u);
  pl ← lift (tsub (scalar_mul (entropy_reg (cfg self)) logp) (detach q_pi));
  let policy_loss := mean pl in
  (* --------------------- Termination Loss --------------------- *)
  next_Q_omega ← lift (tmin next_Q1_omega next_Q2_omega);
  next_V_omega ← lift (tmin next_V1_omega next_V2_omega);
  d ← lift (tsub next_Q_omega next_V_omega);
  let adv := add_scalar d (termination_reg (cfg self)) in
  t1 ← lift (tmul next_option_term_prob (detach adv));
  t2 ← lift (tmul t1 (rsub_scalar 1 done));
  let termination_loss := mean t2 in
  let loss_pi := policy_loss + termination_loss in
  (* ------------------------- TD error update ------------------- *)
  q1 ← call oc (fun W b => Q1 W b states);
  q1o ← lift (gather q1 batch_idx options);
  e1 ← lift (tsub q1o (detach Q1_u));
  let loss_q1 := mean (square e1) in
  q2 ← call oc (fun W b => Q2 W b states);
  q2o ← lift (gather q2 batch_idx options);
  e2 ← lift (tsub q2o (detach Q2_u));
  let loss_q2 := mean (square e2) in
  let loss_q := loss_q1 + loss_q2 in
  mret (mkSacLocals logp terms next_option_term_prob next_Q1 next_V1_omega
          next_Q1_omega Q1_u next_Q2 next_V2_omega next_Q2_omega Q2_u q_pi
          policy_loss adv termination_loss loss_pi loss_q1 loss_q2 loss_q).

(** [optimizer.zero_grad(); loss.backward(); optimizer.step()]: the
    optimizer writes the parameters it was built over, those that take
    part in differentiation. *)
Definition write_if_trainable (h : gmap nat Param) (idv : nat * list R) : gmap nat Param :=
  alter (fun q => if requires_grad q then mkParam idv.2 true else q) idv.1 h.

Definition optimizer_update (before : Trainer) (experiences : Experiences) : M unit :=
  s ← get;
  let held := read_data (heap s) <$> opt_params (optimizer s) in
  let '(vals, st) := optimizer_step (opt_state (optimizer s)) (lr (cfg s)) held
                       (weights (heap s) (oc_targ s)) experiences (rng before) in
  modify (fun s => set_heap (foldl write_if_trainable (heap s)
                               (zip (opt_params (optimizer s)) vals)) s);;
  modify (fun s => set_optimizer (mkOptimizer (opt_params (optimizer s)) st) s).

Definition sac_update (experiences : Experiences) : M unit :=
  before ← get;
  l ← sac_losses experiences;
  (* ------------------------- Update weights -------------------- *)
  optimizer_update before experiences;;
  (* Record loss q and loss pi and qvals in the form of loss_info *)
  modify (fun s => set_logger
    (logger_store [("loss_q1", LFloat (loss_q1 l)); ("loss_q2", LBoundMethod "item");
                   ("loss_q", LFloat (loss_q l)); ("policy_loss", LFloat (policy_loss l));
                   ("termination_loss", LFloat (termination_loss l))]%string
       (logger s)) s);;
  update_target_network.

(** *** save_weights and load_weights *)

(** [net.state_dict()] as the values of the parameters in order, and
    [net.load_state_dict(sd)], which copies the values into the existing
    parameter objects and refuses a dict of another shape. *)
Definition state_dict (net : Net) : M (list (list R)) :=
  s ← get; mret (weights (heap s) net).

Definition same_shapes (a b : list (list R)) : bool :=
  bool_decide (length <$> a = length <$> b).

Definition load_state_dict (net : Net) (sd : list (list R)) : M unit :=
  s ← get;
  if same_shapes (weights (heap s) net) sd then
    modify (fun s => set_heap
      (foldl (fun h idv => alter (fun q => mkParam idv.2 (requires_grad q)) idv.1 h)
             (heap s) (zip (net_params net) sd)) s)
  else raise (RuntimeError "Error(s) in loading state_dict").

(** Modelled from the spec: [sanitise_state_dict] (Algorithms/utils.py)
    renames the keys of a state dict for multi-device prefixes; the
    values, kept here by position, are untouched. *)
Definition sanitise_state_dict {A} (sd : A) (multi_gpu : bool) : A := sd.

(** [os.path.isfile] *)
Definition isfile (s : Trainer) (path : string) : bool := bool_decide (is_Some (fs s !! path)).

Definition write_file (path : string) (f : File) : M unit :=
  modify (fun s => set_fs (<[path := f]> (fs s)) s).

(** Modelled from the spec: [ReplayBuffer.save(path)] and
    [ReplayBuffer.load(path)], which persist and restore the stored
    transitions; reading a file that is absent or is no buffer file fails. *)
Definition rb_save (path : string) : M unit :=
  s ← get; write_file path (BufferFile (rb_memory (replay_buffer s))).

Definition rb_load (path : string) : M unit :=
  s ← get;
  match fs s !! path with
  | Some (BufferFile mem) =>
      modify (set_replay_buffer (mkReplayBuffer (rb_capacity (replay_buffer s)) mem))
  | _ => raise (CollaboratorError "ReplayBuffer.load")
  end.

(** [torch.load(path)] of a checkpoint written by [save_weights]. *)
Definition torch_load (path : string) : M (list (list R) * list (list R) * OptState) :=
  s ← get;
  match fs s !! path with
  | Some (WeightsFile a b c) => mret (a, b, c)
  | _ => raise (CollaboratorError "torch.load")
  end.

Definition save_weights (best : bool) (fname : option string) : M unit :=
  let _fname :=
    match fname with
    | Some f => f
    | None => if best then "best.pth"%string else "model_weights.pth"%string
    end in
  s ← get;
  sd ← state_dict (oc s);
  sd_targ ← state_dict (oc_targ s);
  write_file (path_join (save_dir (cfg s)) _fname)
             (WeightsFile sd sd_targ (opt_state (optimizer s)));;
  rb_save (path_join (save_dir (cfg s)) "replay_buffer.pickle");;
  write_file (path_join (save_dir (cfg s)) "env.json") (EnvFile (env_save (env s))).

Definition load_weights (best : bool) (load_buffer : bool) : M unit :=
  let fname := if best then "best.pth"%string else "model_weights.pth"%string in
  s ← get;
  let checkpoint_path := path_join (save_dir (cfg s)) fname in
  if isfile s checkpoint_path then
    (if load_buffer
     then rb_load (path_join (save_dir (cfg s)) "replay_buffer.pickle")
     else mret tt);;
    '(ck_oc, ck_targ, ck_opt) ← torch_load checkpoint_path;
    load_state_dict (oc s) (sanitise_state_dict ck_oc (bool_decide (1 < ngpu (cfg s))%Z));;
    load_state_dict (oc_targ s) (sanitise_state_dict ck_targ (bool_decide (1 < ngpu (cfg s))%Z));;
    modify (fun s => set_optimizer
      (mkOptimizer (opt_params (optimizer s))
         (sanitise_state_dict ck_opt (bool_decide (1 < ngpu (cfg s))%Z))) s);;
    let env_path := path_join (save_dir (cfg s)) "env.json" in
    s1 ← get;
    (if isfile s1 env_path then
       match fs s1 !! env_path with
       | Some (EnvFile j) => modify (fun s => set_env (env_load (env s) j) s)
       | _ => raise (CollaboratorError "env.load")
       end
     else mret tt)
  else raise (OSError "Checkpoint file not found.").

(** *** The environment and the replay store as seen from the methods *)

Definition env_reset_M : M Obs :=
  s ← get;
  let '(o, e) := env_reset (env s) in
  modify (set_env e);; mret o.

Definition env_step_M (a : Action) : M (Obs * R * bool) :=
  s ← get;
  let '(r, e) := env_step a (env s) in
  modify (set_env e);; mret r.

Definition env_render_M (mode : option string) : M Frame :=
  s ← get;
  let '(f, e) := env_render mode (env s) in
  modify (set_env e);; mret f.

(** [self.env.training = b] *)
Definition env_training (b : bool) : M unit :=
  modify (fun s => set_env (env_set_training b (env s)) s).

(** Modelled from the spec: [ReplayBuffer.sample(batch_size)], a batch of
    stored transitions at randomly drawn positions. *)
Definition rb_sample (n : Z) : M Experiences :=
  s ← get;
  let mem := rb_memory (replay_buffer s) in
  let '(idx, g) := sample_indices (length mem) (Z.to_nat n) (rng s) in
  modify (set_rng g);;
  trs ← lift (mapM (fun i => match mem !! i with
                             | Some tr => Ok tr
                             | None => Raise IndexError
                             end) idx);
  mret (to_experiences trs).

(** [np.mean]; [None] is [nan], the mean of no value. *)
Definition np_mean (v : list R) : option R :=
  match v with
  | [] => None
  | _ => Some (mean v)
  end.

(** [m > b] for a float [m] that may be [nan] and [b] that may be [-inf]. *)
Definition float_gtb (m : option R) (b : ExtR) : bool :=
  match m with
  | None => false
  | Some x => ExtR_gtb (Fin x) b
  end.

(** [y[-n:]] *)
Definition last_n {A} (n : nat) (y : list A) : list A := drop (length y - n) y.

(** *** learn_one_trial *)

(** The local variables that live across iterations of the loop.  [state]
    is unbound until the first episode ends. *)
Record Locals : Type := mkLocals {
  epsilon : R;
  obs : Obs;
  ep_ret : R;
  ep_len : Z;
  curr_op_len : Z;
  option_termination : bool;
  current_option : nat;
  episode : Z;
  option_lengths : gmap nat (list Z);
  state : option Obs
}.

Inductive flow : Type :=
| Continue (l : Locals)
| Return (l : Locals).

(** [{opt: [] for opt in range(self.oc.num_options)}] *)
Definition empty_option_lengths : gmap nat (list Z) :=
  list_to_map ((fun opt => (opt, [])) <$> seq 0 num_options).

(** The body of [for timestep in range(1, timesteps+1)], in three blocks.

    First block: the schedule, the choice of an option, the action, the
    environment step, the stored transition and the new observation.  It
    returns the local variables as they are after
    [option_termination = ...], and [done]. *)
Definition step_act (timestep : Z) (l : Locals) : M (Locals * bool) :=
  self ← get;
  let epsilon := update_epsilon self (epsilon l) (IZR timestep) in
  '(current_option, curr_op_len, option_lengths) ←
    (if option_termination l then
       match option_lengths l !! current_option l with
       | None => raise KeyError
       | Some lens =>
           let option_lengths :=
             <[current_option l := lens ++ [curr_op_len l]]> (option_lengths l) in
           current_option ← call oc (fun W b => get_option W b (obs l) epsilon);
           mret (current_option, 0%Z, option_lengths)
       end
     else mret (current_option l, curr_op_len l, option_lengths l));
  action ← call oc (fun W b => get_action W b (obs l) current_option);
  (* step the environment *)
  '(next_obs, reward, done) ← env_step_M action;
  let ep_ret := ep_ret l + reward in
  let ep_len := (ep_len l + 1)%Z in
  (* ignore the 'done' signal if it just times out *)
  let done := if bool_decide (ep_len = max_ep_len (cfg self)) then false else done in
  (* store experience to replay buffer *)
  modify (fun s => set_replay_buffer
            (rb_append (mkTransition (obs l) current_option reward next_obs done)
                       (replay_buffer s)) s);;
  (* Critical step to update current state *)
  let obs := next_obs in
  option_termination ← call oc (fun W b => predict_option_termination W b obs current_option);
  mret (mkLocals epsilon obs ep_ret ep_len curr_op_len option_termination
          current_option (episode l) option_lengths (state l), done).

(** Second block: the burst of updates. *)
Definition step_update (timestep : Z) : M unit :=
  s ← get;
  do_update ←
    (if bool_decide (batch_size (cfg s) <= rb_size (replay_buffer s))%Z then
       if bool_decide (update_every (cfg s) = 0%Z) then raise ZeroDivisionError
       else mret (bool_decide (timestep `mod` update_every (cfg s) = 0)%Z)
     else mret false);
  if do_update : bool then
    for_each (seqZ 0 (update_every (cfg s)))
      (fun _ => experiences ← rb_sample (batch_size (cfg s));
                sac_update experiences)
  else mret tt.

(** [if mean_reward > self.best_mean_reward:] with its body ("New best
    model"); a [nan] mean compares false. *)
Definition new_best_model (trial_num : Z) (mean_reward : option R) : M unit :=
  s ← get;
  if float_gtb mean_reward (best_mean_reward s) then
    match mean_reward with
    | Some m =>
        modify (set_best_mean_reward (Fin m));;
        save_weights false (Some ("best_" ++ pretty trial_num ++ ".pth")%string)
    | None => mret tt
    end
  else mret tt.

(** Third block: end of trajectory/episode handling. *)
Definition step_episode_end (trial_num : Z) (l : Locals) (done : bool) : M flow :=
  self ← get;
  if done || bool_decide (ep_len l = max_ep_len (cfg self)) then
    modify (fun s => set_logger
      (logger_store [("EpRet", LFloat (ep_ret l)); ("EpLen", LInt (ep_len l));
                     ("OptLen", LOptLen (option_lengths l))]%string (logger s)) s);;
    state ← env_reset_M;
    let ep_ret := 0 in
    let ep_len := 0%Z in
    let option_lengths := empty_option_lengths in
    let episode := (episode l + 1)%Z in
    let l' := mkLocals (epsilon l) (obs l) ep_ret ep_len (curr_op_len l)
                (option_termination l) (current_option l) episode option_lengths
                (Some state) in
    (* Retrieve training reward *)
    s ← get;
    let '(x, y) := logger_load_results ["EpLen"; "EpRet"]%string (logger s) in
    solved ←
      (if bool_decide (0 < length x)%nat then
         (* Mean training reward over the last 50 episodes *)
         let mean_reward := np_mean (last_n 50 y) in
         new_best_model trial_num mean_reward;;
         s ← get;
         match env_reward_threshold (env s) with
         | Some thr => mret (ExtR_geb (best_mean_reward s) (Fin thr))
         | None => mret false
         end
       else mret false);
    if solved : bool then mret (Return l')
    else modify (fun s => set_logger (logger_dump (logger s)) s);; mret (Continue l')
  else
    mret (Continue l).

Definition learn_step (trial_num : Z) (timestep : Z) (l : Locals) : M flow :=
  '(l1, done) ← step_act timestep l;
  step_update timestep;;
  step_episode_end trial_num l1 done.

Fixpoint trial_loop (trial_num : Z) (timesteps : list Z) (l : Locals) : M Locals :=
  match timesteps with
  | [] => mret l
  | timestep :: rest =>
      r ← learn_step trial_num timestep l;
      match r with
      | Continue l' => trial_loop trial_num rest l'
      | Return l' => mret l'
      end
  end.

(** The local variables when the loop is entered. *)
Definition trial_start : M Locals :=
  modify (fun s => set_oc (set_mode true (oc s)) s);;
  modify (fun s => set_oc_targ (set_mode true (oc_targ s)) s);;
  s ← get;
  let epsilon := eps_start (cfg s) in
  obs ← env_reset_M;
  mret (mkLocals epsilon obs 0 0 0 true 0 0 empty_option_lengths None).

Definition learn_one_trial (timesteps : Z) (trial_num : Z) : M unit :=
  l ← trial_start;
  trial_loop trial_num (seqZ 1 timesteps) l;;
  mret tt.

(** *** learn *)

Fixpoint learn_trials (timesteps : Z) (trials : list Z) (best_reward_trial : ExtR) : M unit :=
  match trials with
  | [] => mret tt
  | trial :: rest =>
      learn_one_trial timesteps (trial + 1);;
      s ← get;
      best_reward_trial ←
        (if ExtR_gtb (best_mean_reward s) best_reward_trial then
           save_weights true None;; mret (best_mean_reward s)
         else mret best_reward_trial);
      modify (fun s => set_logger (logger_reset (logger s)) s);;
      reinit_network;;
      learn_trials timesteps rest best_reward_trial
  end.

Definition learn (timesteps : Z) (num_trials : Z) : M unit :=
  env_training true;;
  learn_trials timesteps (seqZ 0 num_trials) NegInf.

(** *** evaluate_agent and test *)

(** The local variables of an episode run without learning. *)
Record TestLocals : Type := mkTestLocals {
  ts_state : Obs;
  ts_done : bool;
  ts_ep_ret : R;
  ts_ep_len : Z;
  ts_img : list Frame
}.

(** [state, reward, done, _ = self.env.step(self.get_action(state, 0))]
    followed by [ep_ret += reward; ep_len += 1], as in [evaluate_agent]. *)
Definition evaluate_step (l : TestLocals) : M TestLocals :=
  (* Take deterministic action with 0 noise added *)
  action ← undefined_attr "get_action";
  '(state, reward, done) ← env_step_M action;
  mret (mkTestLocals state done (ts_ep_ret l + reward) (ts_ep_len l + 1)%Z (ts_img l)).

(** [while not (done or (ep_len == self.max_ep_len)): body] *)
Fixpoint while_episode (fuel : nat) (body : TestLocals -> M TestLocals) (l : TestLocals) : M TestLocals :=
  s ← get;
  if ts_done l || bool_decide (ts_ep_len l = max_ep_len (cfg s)) then mret l
  else
    match fuel with
    | O => raise OutOfFuel
    | S fuel' => l' ← body l; while_episode fuel' body l'
    end.

(** [fuel] bounds the iterations of each [while] loop. *)
Definition evaluate_agent (fuel : nat) : M unit :=
  env_training false;;
  num_test_episodes ← undefined_attr (A := Z) "num_test_episodes";
  for_each (seqZ 0 num_test_episodes)
    (fun i =>
       state ← env_reset_M;
       l ← while_episode fuel evaluate_step (mkTestLocals state false 0 0 []);
       modify (fun s => set_logger
         (logger_store [("TestEpRet", LFloat (ts_ep_ret l));
                        ("TestEpLen", LInt (ts_ep_len l))]%string (logger s)) s));;
  env_training true.

(** The body shared by the two loops of [test]. *)
Definition test_step (record : bool) (l : TestLocals) : M TestLocals :=
  (* Take deterministic action with 0 noise added *)
  action ← undefined_attr "get_action";
  '(state, reward, done) ← env_step_M action;
  img ← (if record then f ← env_render_M (Some "rgb_array"%string); mret (ts_img l ++ [f])
         else env_render_M None;; mret (ts_img l));
  mret (mkTestLocals state done (ts_ep_ret l + reward) (ts_ep_len l + 1)%Z img).

Fixpoint test_for (n : nat) (record : bool) (l : TestLocals) : M TestLocals :=
  match n with
  | O => mret l
  | S n' => l' ← test_step record l; test_for n' record l'
  end.

(** The frames kept by [[... for i, img in enumerate(img) if i%2 == 0]]. *)
Fixpoint even_frames {A} (l : list A) : list A :=
  match l with
  | [] => []
  | x :: l' => x :: match l' with [] => [] | _ :: l'' => even_frames l'' end
  end.

(** [timesteps = None] is the default [timesteps=None]; [fuel] bounds the
    iterations of the [while] loop. *)
Definition test (fuel : nat) (timesteps : option Z) (render : bool) (record : bool) : M (R * Z) :=
  modify (fun s => set_oc (set_mode false (oc s)) s);;
  modify (fun s => set_oc_targ (set_mode false (oc_targ s)) s);;
  env_training false;;
  (if render then env_render_M (Some "human"%string);; mret tt else mret tt);;
  state ← env_reset_M;
  img ← (if record then f ← env_render_M (Some "rgb_array"%string); mret [f] else mret []);
  let l0 := mkTestLocals state false 0 0 img in
  l ← match timesteps with
      | Some n => test_for (Z.to_nat n) record l0
      | None => while_episode fuel (test_step record) l0
      end;
  s ← get;
  (if record then
     write_file (path_join (save_dir (cfg s)) "recording.gif") (Recording (even_frames (ts_img l)))
   else mret tt);;
  env_training true;;
  mret (ts_ep_ret l, ts_ep_len l).

(** *** The life of a trainer: any sequence of method calls after [__init__] *)

Inductive method_call : Type :=
| Call_reinit_network
| Call_update_target_network
| Call_sac_update (experiences : Experiences)
| Call_evaluate_agent (fuel : nat)
| Call_save_weights (best : bool) (fname : option string)
| Call_load_weights (best load_buffer : bool)
| Call_learn_one_trial (timesteps trial_num : Z)
| Call_learn (timesteps num_trials : Z)
| Call_test (fuel : nat) (timesteps : option Z) (render record : bool).

Definition run_call (c : method_call) : M unit :=
  match c with
  | Call_reinit_network => reinit_network
  | Call_update_target_network => update_target_network
  | Call_sac_update e => sac_update e
  | Call_evaluate_agent fuel => evaluate_agent fuel
  | Call_save_weights best fname => save_weights best fname
  | Call_load_weights best load_buffer => load_weights best load_buffer
  | Call_learn_one_trial timesteps trial_num => learn_one_trial timesteps trial_num
  | Call_learn timesteps num_trials => learn timesteps num_trials
  | Call_test fuel timesteps render record => test fuel timesteps render record;; mret tt
  end.

(** The state after a call, whether it returned or raised. *)
Definition after (c : method_call) (s : Trainer) : Trainer := (run_call c s).2.

Inductive reachable : Trainer -> Prop :=
| reachable_init args env0 logger0 rng0 fs0 :
    reachable (init args env0 logger0 rng0 fs0)
| reachable_call c s :
    reachable s -> reachable (after c s).

(** *** Vocabulary of the properties *)

(** Every run of [m], returning or raising, relates the state before to
    the state after by [G]. *)
Definition guarantees {A} (G : relation Trainer) (m : M A) : Prop :=
  forall s r s', m s = (r, s') -> G s s'.

(** From every state [m] returns, with a result in [Q]. *)
Definition returns_with {A} (Q : A -> Prop) (m : M A) : Prop :=
  forall s, exists a s', m s = (Ok a, s') /\ Q a.

(** [m] raises no exception outside [P]. *)
Definition raises_only {A} (P : exn -> Prop) (m : M A) : Prop :=
  forall s e s', m s = (Raise e, s') -> P e.

(** The part [f] of the state is left as it was. *)
Definition unchanged {X} (f : Trainer -> X) : relation Trainer :=
  fun s s' => f s' = f s.

(** Relations that hold across the effects no property below cares about:
    drawing random numbers, switching a network between train and eval
    mode, logging and writing files. *)
Class FrameRel (G : relation Trainer) : Prop := {
  frame_preorder :: PreOrder G;
  frame_rng : forall s g, G s (set_rng g s);
  frame_oc_mode : forall s b, G s (set_oc (set_mode b (oc s)) s);
  frame_oc_targ_mode : forall s b, G s (set_oc_targ (set_mode b (oc_targ s)) s);
  frame_logger : forall s x, G s (set_logger x s);
  frame_fs : forall s x, G s (set_fs x s)
}.

(** No file is written, and the environment is left alone unless there
    is a file at [path]. *)
Definition env_kept (path : string) : relation Trainer :=
  fun s s' => fs s' = fs s /\ (fs s !! path = None -> env s' = env s).

(** [best_mean_reward] keeps its value or takes a strictly larger one. *)
Definition ExtR_lt (a b : ExtR) : Prop :=
  match a, b with
  | _, NegInf => False
  | NegInf, Fin _ => True
  | Fin x, Fin y => x < y
  end.

Definition best_grows : relation Trainer :=
  fun s s' => best_mean_reward s' = best_mean_reward s \/
              ExtR_lt (best_mean_reward s) (best_mean_reward s').

(** Two computations that, from every state, end in the same state with
    the same exception or with results related by [rho]. *)
Definition sim {A} (rho : A -> A -> Prop) (m1 m2 : M A) : Prop :=
  forall s,
    match m1 s, m2 s with
    | (Ok a1, s1), (Ok a2, s2) => rho a1 a2 /\ s1 = s2
    | (Raise e1, s1), (Raise e2, s2) => e1 = e2 /\ s1 = s2
    | _, _ => False
    end.

(** The local variables up to the value of [state]. *)
Definition same_but_state (l l' : Locals) : Prop :=
  epsilon l = epsilon l' /\ obs l = obs l' /\ ep_ret l = ep_ret l' /\
  ep_len l = ep_len l' /\ curr_op_len l = curr_op_len l' /\
  option_termination l = option_termination l' /\
  current_option l = current_option l' /\ episode l = episode l' /\
  option_lengths l = option_lengths l'.

Definition same_flow (f f' : flow) : Prop :=
  match f, f' with
  | Continue l, Continue l' => same_but_state l l'
  | Return l, Return l' => same_but_state l l'
  | _, _ => False
  end.

(** The parameters, the optimizer, the replay store and the best mean
    reward: what learning writes. *)
Definition learned (s : Trainer) :
    gmap nat Param * list nat * list nat * Optimizer * ReplayBuffer * ExtR :=
  (heap s, net_params (oc s), net_params (oc_targ s), optimizer s, replay_buffer s,
   best_mean_reward s).

(** The data of the target network: which objects its parameters are, and
    what they hold. *)
Definition target_data (s : Trainer) : list nat * list (list R) :=
  (net_params (oc_targ s), weights (heap s) (oc_targ s)).

(** What holds of the optimizer and the target network in every state of a
    trainer: the optimizer is built over the parameters of [oc]; no
    parameter of [oc_targ] is one of them; every parameter of [oc_targ]
    exists and is frozen. *)
Definition optimizer_inv (s : Trainer) : Prop :=
  opt_params (optimizer s) = net_params (oc s) /\
  (forall id, (id ∈ net_params (oc_targ s)) ->
     (id ∉ net_params (oc s)) /\
     exists q, heap s !! id = Some q /\ requires_grad q = false).

(** A change of the store that writes data only: the same networks, the
    same parameters under the optimizer, and every parameter keeps its
    [requires_grad] flag. *)
Definition data_write : relation Trainer :=
  fun s s' =>
    net_params (oc s') = net_params (oc s) /\
    net_params (oc_targ s') = net_params (oc_targ s) /\
    opt_params (optimizer s') = opt_params (optimizer s) /\
    forall id, requires_grad <$> (heap s' !! id) = requires_grad <$> (heap s !! id).

(** How the target network may change between two states: not at all, by a
    run of [update_target_network], by [load_state_dict] on [oc_targ]
    (checkpoint restore) when [restore] allows it, by being replaced with a
    new frozen copy ([reinit_network]) when [reinit] allows it, or by a
    sequence of such changes. *)
Inductive target_history (restore reinit : bool) : relation Trainer :=
| th_same s s' :
    target_data s' = target_data s -> target_history restore reinit s s'
| th_polyak s :
    target_history restore reinit s (update_target_network s).2
| th_restore s sd :
    restore = true ->
    target_history restore reinit s (load_state_dict (oc_targ s) sd s).2
| th_reinit s :
    reinit = true ->
    target_history restore reinit s (reinit_network s).2
| th_trans s1 s2 s3 :
    target_history restore reinit s1 s2 -> target_history restore reinit s2 s3 ->
    target_history restore reinit s1 s3.

(** Both at once: the invariant is kept and the target network changes in
    the listed ways only. *)
Definition target_discipline (restore reinit : bool) : relation Trainer :=
  fun s s' => optimizer_inv s -> optimizer_inv s' /\ target_history restore reinit s s'.

(** The methods that restore the target from a checkpoint, and those that
    replace it. *)
Definition restores (c : method_call) : bool :=
  match c with
  | Call_load_weights _ _ => true
  | _ => false
  end.

Definition replaces (c : method_call) : bool :=
  match c with
  | Call_reinit_network | Call_learn _ _ => true
  | _ => false
  end.

End Model.

(** *** A small concrete instance

    Two options, observations and actions are numbers, the environment
    counts its steps and pays reward 1, the networks ignore their weights,
    the optimizer adds 1 to every weight it holds, and the logger keeps the
    episode returns. *)
Module Toy.

Definition toy_logger_store (kvs : list (string * logval)) (st : list R) : list R :=
  match kvs with
  | (_, LFloat x) :: (_, LInt _) :: _ => st ++ [x]
  | _ => st
  end.

Definition toy : Collaborators := {|
  Obs := nat;
  Action := nat;
  Latent := list nat;
  EnvState := nat;
  EnvJson := nat;
  Frame := nat;
  Rng := nat;
  OptState := nat;
  LoggerState := list R;
  env_reset := fun e => (0%nat, e);
  env_step := fun a e => ((S e, 1, false), S e);
  env_render := fun _ e => (e, e);
  env_set_training := fun _ e => e;
  env_max_episode_steps := fun _ => Some 2%Z;
  env_reward_threshold := fun _ => None;
  env_save := fun e => e;
  env_load := fun _ j => j;
  num_options := 2;
  oc_construct := fun g => ([mkParam [1; 2] true], S g);
  encode_state := fun _ _ o g => (o, g);
  policies := fun _ _ z opts g => ((List.map (fun _ => 0%nat) opts, List.map (fun _ => 0) opts), g);
  get_terminations := fun _ _ o g => (List.map (fun _ => [1 / 2; 1]) o, g);
  Q1 := fun _ _ z g => (List.map (fun _ => [3; 5]) z, g);
  Q2 := fun _ _ z g => (List.map (fun _ => [4; 2]) z, g);
  get_option := fun _ _ _ _ g => (0%nat, g);
  get_action := fun _ _ _ _ g => (0%nat, g);
  predict_option_termination := fun _ _ _ _ g => (false, g);
  optimizer_new := fun _ => 0%nat;
  optimizer_step := fun st _ held _ _ _ => (List.map (List.map (fun x => x + 1)) held, S st);
  logger_store := toy_logger_store;
  logger_load_results := fun _ st => (st, st);
  logger_dump := fun st => st;
  logger_reset := fun _ => [];
  sample_indices := fun n k g => (seq 0 k, S g)
|}.

#[local] Existing Instance toy.

Definition toy_args : Config :=
  mkConfig (1 / 2) 1 (1 / 10) 20000 (1 / 1000) 1 1 (1 / 100) (1 / 5) (1 / 2)
    1000 100 1 "run" 1.

(** A checkpoint whose target weights differ from the ones [__init__] gives. *)
Definition toy_fs : gmap string File :=
  {[ "run/best.pth"%string := WeightsFile [[7; 7]] [[9; 9]] 0%nat ]}.

Definition toy_trainer : Trainer := init toy_args 0%nat [] 0%nat toy_fs.

(** A batch of two transitions that differ in the terminal flag only. *)
Definition toy_batch : Experiences :=
  ([0%nat; 0%nat], [0%nat; 0%nat], [1; 1], [1%nat; 1%nat], [1; 0]).

(** Local variables one step before the step limit of the environment. *)
Definition toy_locals_last : Locals :=
  mkLocals 1 1%nat 1 1 0 false 0 0 empty_option_lengths None.

End Toy.

(** ** Part II.  Properties *)

(** *** Running monadic code *)

Section Running.
Context {C : Collaborators}.

Lemma run_bind {A B} (m : M A) (f : A -> M B) (s : Trainer) :
  (m ≫= f) s = match m s with
               | (Ok a, s') => f a s'
               | (Raise e, s') => (Raise e, s')
               end.
Proof. reflexivity. Qed.

Lemma run_ret {A} (a : A) (s : Trainer) : mret (M := M) a s = (Ok a, s).
Proof. reflexivity. Qed.

Lemma bind_Ok_inv {A B} (m : M A) (f : A -> M B) s b s' :
  (m ≫= f) s = (Ok b, s') ->
  exists a s1, m s = (Ok a, s1) /\ f a s1 = (Ok b, s').
Proof.
  rewrite run_bind. destruct (m s) as [[a|e] s1]; intros H; [eauto | discriminate].
Qed.

Lemma call_run {A} (net : Trainer -> Net) (f : list (list R) -> bool -> Rng -> A * Rng) s :
  call net f s =
  (Ok (f (weights (heap s) (net s)) (net_training (net s)) (rng s)).1,
   set_rng (f (weights (heap s) (net s)) (net_training (net s)) (rng s)).2 s).
Proof.
  unfold call. rewrite run_bind. simpl.
  destruct (f _ _ _) as [a g]. reflexivity.
Qed.

Lemma call_Ok_inv {A} (net : Trainer -> Net) (f : list (list R) -> bool -> Rng -> A * Rng) s a s' :
  call net f s = (Ok a, s') ->
  exists g', f (weights (heap s) (net s)) (net_training (net s)) (rng s) = (a, g') /\
             s' = set_rng g' s.
Proof.
  rewrite call_run. destruct (f _ _ _) as [a' g'] eqn:E. intros H.
  inversion H; subst. eauto.
Qed.

Lemma lift_Ok_inv {A} (r : result A) s a s' :
  lift r s = (Ok a, s') -> r = Ok a /\ s' = s.
Proof. unfold lift. intros H. by inversion H. Qed.

Lemma modify_Ok_inv f s (a : unit) s' :
  modify f s = (Ok a, s') -> s' = f s.
Proof. unfold modify. intros H. by inversion H. Qed.

Lemma get_Ok_inv s a s' :
  get s = (Ok a, s') -> a = s /\ s' = s.
Proof. unfold get. intros H. by inversion H. Qed.

End Running.

(** One step of inversion of a successful run [H : (m ≫= f) s = (Ok b, s')]. *)
Ltac bind_inv H :=
  let a := fresh "a" in let s1 := fresh "s" in let H1 := fresh "Hstep" in
  apply bind_Ok_inv in H as (a & s1 & H1 & H); cbv beta in H;
  first
    [ apply modify_Ok_inv in H1
    | apply get_Ok_inv in H1 as [-> ->]
    | apply lift_Ok_inv in H1 as [H1 ->]
    | let g := fresh "g" in let Hs := fresh "Hs" in
      apply call_Ok_inv in H1 as (g & H1 & Hs)
    | idtac ].

(** *** Rank-one tensors *)

Section Tensors.

Lemma elementwise_Ok (f : R -> R -> R) (a b c : list R) :
  elementwise f a b = Ok c -> length a = length b /\ c = zip_with f a b.
Proof.
  unfold elementwise. case_decide as Hl; intros H; [| discriminate].
  by inversion H.
Qed.

Lemma elementwise_lookup (f : R -> R -> R) (a b c : list R) i x y :
  elementwise f a b = Ok c -> a !! i = Some x -> b !! i = Some y ->
  c !! i = Some (f x y).
Proof.
  intros [_ ->]%elementwise_Ok Ha Hb.
  rewrite lookup_zip_with, Ha. simpl. rewrite Hb. reflexivity.
Qed.

Lemma elementwise_length (f : R -> R -> R) (a b c : list R) :
  elementwise f a b = Ok c -> length c = length a /\ length c = length b.
Proof.
  intros [Hl ->]%elementwise_Ok. rewrite length_zip_with. lia.
Qed.

Lemma mapM_Ok_Forall2 {A B} (f : A -> result B) (l : list A) (k : list B) :
  mapM f l = Ok k -> Forall2 (fun x y => f x = Ok y) l k.
Proof.
  revert k. induction l as [| x l IH]; intros k H; simpl in H.
  - inversion H. constructor.
  - destruct (f x) as [y |] eqn:Hx; [| discriminate]. simpl in H.
    destruct (mapM f l) as [k' |]; [| discriminate]. simpl in H.
    inversion H; subst. constructor; [done | by apply IH].
Qed.

Lemma Forall2_mapM_Ok {A B} (f : A -> result B) (l : list A) (k : list B) :
  Forall2 (fun x y => f x = Ok y) l k -> mapM f l = Ok k.
Proof.
  induction 1 as [| x y l k Hx _ IH]; simpl; [done |].
  rewrite Hx. simpl. rewrite IH. reflexivity.
Qed.

Lemma lookup_zip_arange {A} (opts : list A) i o :
  opts !! i = Some o -> zip (arange (length opts)) opts !! i = Some (i, o).
Proof.
  intros Ho. unfold arange. rewrite lookup_zip_with.
  rewrite lookup_seq_lt by (by eapply lookup_lt_Some). simpl. by rewrite Ho.
Qed.

Lemma gather_Ok (m : list (list R)) (opts : list nat) (v : list R) :
  gather m (arange (length opts)) opts = Ok v ->
  length v = length opts /\
  forall i o, opts !! i = Some o ->
    exists x, index_pair m i o = Ok x /\ v !! i = Some x.
Proof.
  unfold gather. case_decide as Hlen; [| discriminate].
  intros HF%mapM_Ok_Forall2. split.
  - apply Forall2_length in HF. rewrite <- HF.
    unfold arange. rewrite length_zip_with, length_seq. lia.
  - intros i o Ho.
    destruct (Forall2_lookup_l _ _ _ i (i, o) HF (lookup_zip_arange _ _ _ Ho))
      as (x & Hx & Hix).
    exists x. by split.
Qed.

Lemma max_last_dim_Ok (m : list (list R)) (v : list R) :
  max_last_dim m = Ok v ->
  length v = length m /\
  forall i row, m !! i = Some row ->
    exists x, row_max row = Ok x /\ v !! i = Some x.
Proof.
  intros HF%mapM_Ok_Forall2. split.
  - symmetry. by eapply Forall2_length.
  - intros i row Hrow.
    destruct (Forall2_lookup_l _ _ _ i row HF Hrow) as (x & Hx & Hr). eauto.
Qed.

Lemma foldl_Rmax_ge (xs : list R) (x : R) :
  x <= foldl Rmax x xs /\ forall y, y ∈ xs -> y <= foldl Rmax x xs.
Proof.
  revert x. induction xs as [| z xs IH]; intros x; simpl.
  - split; [lra | intros y Hy; by apply elem_of_nil in Hy].
  - destruct (IH (Rmax x z)) as [H1 H2]. split.
    + pose proof (Rmax_l x z). lra.
    + intros y [-> | Hy]%elem_of_cons; [| by apply H2].
      pose proof (Rmax_r x z). lra.
Qed.

Lemma foldl_Rmax_in (xs : list R) (x : R) : foldl Rmax x xs ∈ x :: xs.
Proof.
  revert x. induction xs as [| z xs IH]; intros x; simpl.
  - apply list_elem_of_here.
  - specialize (IH (Rmax x z)).
    apply elem_of_cons in IH as [-> | Hin].
    + unfold Rmax. destruct (Rle_dec x z).
      * apply list_elem_of_further, list_elem_of_here.
      * apply list_elem_of_here.
    + by do 2 apply list_elem_of_further.
Qed.

(** The value [max_last_dim] keeps of a row is an entry of the row and
    bounds every entry. *)
Lemma row_max_spec (row : list R) (x : R) :
  row_max row = Ok x -> x ∈ row /\ forall y, y ∈ row -> y <= x.
Proof.
  destruct row as [| z zs]; simpl; [discriminate |].
  intros H. inversion H; subst. split.
  - apply foldl_Rmax_in.
  - destruct (foldl_Rmax_ge zs z) as [H1 H2].
    intros y [-> | Hy]%elem_of_cons; [done | by apply H2].
Qed.

End Tensors.

Section SacLosses.
Context {C : Collaborators}.

(** What a successful run of the loss computation says about the local
    variables: every tensor is the result of the statement that binds it,
    the three matrices come from the networks named in the source. *)
Lemma sac_losses_inv obs options rewards next_obs done s l s' :
  sac_losses (obs, options, rewards, next_obs, done) s = (Ok l, s') ->
  let batch_idx := arange (length options) in
  (exists g g', get_terminations (weights (heap s) (oc s)) true next_obs g
                = (terminations l, g')) /\
  (exists z g1 g1' g2 g2',
      Q1 (weights (heap s) (oc_targ s)) true z g1 = (next_Q1 l, g1') /\
      Q2 (weights (heap s) (oc_targ s)) true z g2 = (next_Q2 l, g2')) /\
  gather (terminations l) batch_idx options = Ok (next_option_term_prob l) /\
  max_last_dim (next_Q1 l) = Ok (next_V1_omega l) /\
  gather (next_Q1 l) batch_idx options = Ok (next_Q1_omega l) /\
  (exists a b utility c,
      tmul (rsub_scalar 1 (next_option_term_prob l)) (next_Q1_omega l) = Ok a /\
      tmul (next_option_term_prob l) (next_V1_omega l) = Ok b /\
      tadd a b = Ok utility /\
      tmul (mul_scalar (rsub_scalar 1 done) (gamma (cfg s))) utility = Ok c /\
      tadd rewards c = Ok (Q1_u l)) /\
  max_last_dim (next_Q2 l) = Ok (next_V2_omega l) /\
  gather (next_Q2 l) batch_idx options = Ok (next_Q2_omega l) /\
  (exists a b utility c,
      tmul (rsub_scalar 1 (next_option_term_prob l)) (next_Q2_omega l) = Ok a /\
      tmul (next_option_term_prob l) (next_V2_omega l) = Ok b /\
      tadd a b = Ok utility /\
      tmul (mul_scalar (rsub_scalar 1 done) (gamma (cfg s))) utility = Ok c /\
      tadd rewards c = Ok (Q2_u l)) /\
  tmin (Q1_u l) (Q2_u l) = Ok (q_pi l) /\
  (exists pl,
      tsub (scalar_mul (entropy_reg (cfg s)) (logp l)) (detach (q_pi l)) = Ok pl /\
      policy_loss l = mean pl) /\
  (exists next_Q_omega next_V_omega d t1 t2,
      tmin (next_Q1_omega l) (next_Q2_omega l) = Ok next_Q_omega /\
      tmin (next_V1_omega l) (next_V2_omega l) = Ok next_V_omega /\
      tsub next_Q_omega next_V_omega = Ok d /\
      adv l = add_scalar d (termination_reg (cfg s)) /\
      tmul (next_option_term_prob l) (detach (adv l)) = Ok t1 /\
      tmul t1 (rsub_scalar 1 done) = Ok t2 /\
      termination_loss l = mean t2) /\
  loss_pi l = policy_loss l + termination_loss l /\
  loss_q l = loss_q1 l + loss_q2 l.
Proof.
  intros H. unfold sac_losses in H.
  bind_inv H. bind_inv H. bind_inv H. bind_inv H. bind_inv H.
  destruct a2 as [pi lp].
  repeat bind_inv H.
  inversion H; subst l; clear H. cbn [logp terminations next_option_term_prob
    next_Q1 next_V1_omega next_Q1_omega Q1_u next_Q2 next_V2_omega next_Q2_omega
    Q2_u q_pi policy_loss adv termination_loss loss_pi loss_q1 loss_q2 loss_q].
  assert (Hcfg : cfg s1 = cfg s) by (subst; reflexivity).
  rewrite Hcfg in *.
  assert (Hw : forall t, t = s1 \/ t = s2 \/ t = s3 \/ t = s4 \/ t = s5 \/ t = s6 ->
             heap t = heap s /\ net_params (oc t) = net_params (oc s) /\
             net_params (oc_targ t) = net_params (oc_targ s) /\
             net_training (oc t) = true /\ net_training (oc_targ t) = true).
  { intros t Ht. subst. repeat destruct Ht as [-> | Ht]; try subst t; done. }
  assert (Hwt : forall t, t = s1 \/ t = s2 \/ t = s3 \/ t = s4 \/ t = s5 \/ t = s6 ->
             weights (heap t) (oc t) = weights (heap s) (oc s) /\
             weights (heap t) (oc_targ t) = weights (heap s) (oc_targ s)).
  { intros t Ht. destruct (Hw t Ht) as (Hh & Ho & Ht' & _). unfold weights.
    by rewrite Hh, Ho, Ht'. }
  assert (E : forall t, t = s1 \/ t = s2 \/ t = s3 \/ t = s4 \/ t = s5 \/ t = s6 ->
             weights (heap t) (oc t) = weights (heap s) (oc s) /\
             weights (heap t) (oc_targ t) = weights (heap s) (oc_targ s) /\
             net_training (oc t) = true /\ net_training (oc_targ t) = true).
  { intros t Ht. destruct (Hwt t Ht) as [? ?]. destruct (Hw t Ht) as (_ & _ & _ & ? & ?).
    done. }
  destruct (E s3) as (E3 & _ & M3 & _); [tauto |].
  destruct (E s5) as (_ & E5 & _ & M5); [tauto |].
  destruct (E s6) as (_ & E6 & _ & M6); [tauto |].
  rewrite ?E3, ?M3, ?E5, ?M5, ?E6, ?M6 in *.
  repeat split; eauto 10.
  eexists _, _, _, _, _. repeat split; eauto.
Qed.

End SacLosses.

Section Targets.
Context {C : Collaborators}.

Lemma lookup_rsub_scalar c (t : list R) i x :
  t !! i = Some x -> rsub_scalar c t !! i = Some (c - x).
Proof. intros H. unfold rsub_scalar. by rewrite list_lookup_fmap, H. Qed.

Lemma lookup_mul_scalar (t : list R) c i x :
  t !! i = Some x -> mul_scalar t c !! i = Some (x * c).
Proof. intros H. unfold mul_scalar. by rewrite list_lookup_fmap, H. Qed.

Lemma lookup_add_scalar (t : list R) c i x :
  t !! i = Some x -> add_scalar t c !! i = Some (x + c).
Proof. intros H. unfold add_scalar. by rewrite list_lookup_fmap, H. Qed.

(** The five statements that compute one critic's target, read at one
    position of the batch. *)
Lemma target_block (betas qs vs rewards done : list R) gam a b u c Qu :
  tmul (rsub_scalar 1 betas) qs = Ok a ->
  tmul betas vs = Ok b ->
  tadd a b = Ok u ->
  tmul (mul_scalar (rsub_scalar 1 done) gam) u = Ok c ->
  tadd rewards c = Ok Qu ->
  (length Qu = length betas /\ length rewards = length betas /\
   length done = length betas) /\
  forall i beta q v r d,
    betas !! i = Some beta -> qs !! i = Some q -> vs !! i = Some v ->
    rewards !! i = Some r -> done !! i = Some d ->
    Qu !! i = Some (bootstrap_target gam r d (utility_of beta q v)).
Proof.
  intros Ha Hb Hu Hc HQ. split.
  - apply elementwise_length in Ha, Hb, Hu, Hc, HQ.
    unfold rsub_scalar, mul_scalar in *. rewrite ?length_fmap in *. lia.
  - intros i beta q v r d Hbeta Hq Hv Hr Hd.
    unfold bootstrap_target, utility_of.
    eapply (elementwise_lookup Rplus); [exact HQ | exact Hr |].
    eapply (elementwise_lookup Rmult); [exact Hc | |].
    + by apply lookup_mul_scalar, lookup_rsub_scalar.
    + eapply (elementwise_lookup Rplus); [exact Hu | |].
      * eapply (elementwise_lookup Rmult); [exact Ha | | exact Hq].
        by apply lookup_rsub_scalar.
      * eapply (elementwise_lookup Rmult); [exact Hb | exact Hbeta | exact Hv].
Qed.

Lemma index_pair_row (m : list (list R)) i o x :
  index_pair m i o = Ok x -> exists row, m !! i = Some row /\ row !! o = Some x.
Proof.
  unfold index_pair. destruct (m !! i) as [row |]; [| discriminate].
  destruct (row !! o) as [y |] eqn:E; [| discriminate].
  intros H. inversion H; subst. eauto.
Qed.

(** Everything [sac_losses] knows about position [i] of the batch. *)
Lemma sac_losses_at obs options rewards next_obs done s l s' i o :
  sac_losses (obs, options, rewards, next_obs, done) s = (Ok l, s') ->
  options !! i = Some o ->
  exists r d beta q1 v1 q2 v2 row1 row2,
    rewards !! i = Some r /\ done !! i = Some d /\
    index_pair (terminations l) i o = Ok beta /\
    next_option_term_prob l !! i = Some beta /\
    next_Q1 l !! i = Some row1 /\ row1 !! o = Some q1 /\ row_max row1 = Ok v1 /\
    next_Q1_omega l !! i = Some q1 /\ next_V1_omega l !! i = Some v1 /\
    next_Q2 l !! i = Some row2 /\ row2 !! o = Some q2 /\ row_max row2 = Ok v2 /\
    next_Q2_omega l !! i = Some q2 /\ next_V2_omega l !! i = Some v2 /\
    Q1_u l !! i = Some (bootstrap_target (gamma (cfg s)) r d (utility_of beta q1 v1)) /\
    Q2_u l !! i = Some (bootstrap_target (gamma (cfg s)) r d (utility_of beta q2 v2)).
Proof.
  intros H Ho.
  destruct (sac_losses_inv _ _ _ _ _ _ _ _ H)
    as (_ & _ & Hbeta & HV1 & HQ1 & (a1 & b1 & u1 & c1 & T1) & HV2 & HQ2
        & (a2 & b2 & u2 & c2 & T2) & _).
  destruct T1 as (T1a & T1b & T1u & T1c & T1Q).
  destruct T2 as (T2a & T2b & T2u & T2c & T2Q).
  destruct (target_block _ _ _ _ _ _ _ _ _ _ _ T1a T1b T1u T1c T1Q) as [(_ & Lr & Ld) B1].
  destruct (target_block _ _ _ _ _ _ _ _ _ _ _ T2a T2b T2u T2c T2Q) as [_ B2].
  destruct (gather_Ok _ _ _ Hbeta) as [Lb Gb].
  destruct (Gb i o Ho) as (beta & Ib & Hb).
  destruct (gather_Ok _ _ _ HQ1) as [_ G1]. destruct (G1 i o Ho) as (q1 & I1 & Hq1).
  destruct (gather_Ok _ _ _ HQ2) as [_ G2]. destruct (G2 i o Ho) as (q2 & I2 & Hq2).
  destruct (index_pair_row _ _ _ _ I1) as (row1 & Hrow1 & Hq1').
  destruct (index_pair_row _ _ _ _ I2) as (row2 & Hrow2 & Hq2').
  destruct (max_last_dim_Ok _ _ HV1) as [_ M1]. destruct (M1 i row1 Hrow1) as (v1 & Rv1 & Hv1).
  destruct (max_last_dim_Ok _ _ HV2) as [_ M2]. destruct (M2 i row2 Hrow2) as (v2 & Rv2 & Hv2).
  assert (Hi : (i < length options)%nat) by (by eapply lookup_lt_Some).
  destruct (lookup_lt_is_Some_2 rewards i) as [r Hr]; [lia |].
  destruct (lookup_lt_is_Some_2 done i) as [d Hd]; [lia |].
  exists r, d, beta, q1, v1, q2, v2, row1, row2.
  repeat split; eauto.
Qed.

End Targets.

(** *** Frame rules *)

Section Guarantees.
Context {C : Collaborators}.
Context (G : relation Trainer) `{!PreOrder G}.

Lemma guar_ret {A} (a : A) : guarantees G (mret a).
Proof. intros s r s' H. inversion H; subst. reflexivity. Qed.

Lemma guar_raise {A} e : guarantees G (raise (A := A) e).
Proof. intros s r s' H. inversion H; subst. reflexivity. Qed.

Lemma guar_get : guarantees G get.
Proof. intros s r s' H. inversion H; subst. reflexivity. Qed.

Lemma guar_lift {A} (x : result A) : guarantees G (lift x).
Proof. intros s r s' H. inversion H; subst. reflexivity. Qed.

Lemma guar_modify f : (forall s, G s (f s)) -> guarantees G (modify f).
Proof. intros Hf s r s' H. inversion H; subst. apply Hf. Qed.

Lemma guar_bind {A B} (m : M A) (f : A -> M B) :
  guarantees G m -> (forall a, guarantees G (f a)) -> guarantees G (m ≫= f).
Proof.
  intros Hm Hf s r s' H. rewrite run_bind in H.
  destruct (m s) as [[a | e] s1] eqn:E.
  - transitivity s1; [by eapply Hm | by eapply Hf].
  - inversion H; subst. by eapply Hm.
Qed.

Lemma guar_for_each {A} (l : list A) (body : A -> M unit) :
  (forall x, guarantees G (body x)) -> guarantees G (for_each l body).
Proof.
  intros Hb. induction l as [| x l IH]; simpl.
  - apply guar_ret.
  - apply guar_bind; [apply Hb | intros _; apply IH].
Qed.

End Guarantees.

(** Decomposition of a goal [guarantees G m] along the structure of [m]. *)
Ltac guar_apply L := apply L; try typeclasses eauto.

Ltac guar_step :=
  lazymatch goal with
  | |- guarantees _ (_ ≫= _) => guar_apply guar_bind; [| intros ?]
  | |- guarantees _ (mret _) => guar_apply guar_ret
  | |- guarantees _ (raise _) => guar_apply guar_raise
  | |- guarantees _ get => guar_apply guar_get
  | |- guarantees _ (lift _) => guar_apply guar_lift
  | |- guarantees _ (for_each _ _) => guar_apply guar_for_each; intros ?
  | |- guarantees _ (match ?x with _ => _ end) => destruct x
  end.

Section FrameRules.
Context {C : Collaborators}.
Context (G : relation Trainer) `{!FrameRel G}.
#[local] Existing Instance frame_preorder.

Lemma guar_call {A} (net : Trainer -> Net) (f : list (list R) -> bool -> Rng -> A * Rng) :
  guarantees G (call net f).
Proof.
  intros s r s' H. rewrite call_run in H. inversion H; subst. apply frame_rng.
Qed.

Hypothesis Henv : forall s e, G s (set_env e s).

Lemma guar_env_reset : guarantees G env_reset_M.
Proof.
  unfold env_reset_M. guar_step; [guar_step |].
  destruct (env_reset (env a)). guar_step; [| guar_step].
  guar_apply guar_modify. intros s. apply Henv.
Qed.

Lemma guar_env_step a : guarantees G (env_step_M a).
Proof.
  unfold env_step_M. guar_step; [guar_step |].
  destruct (env_step a (env a0)). guar_step; [| guar_step].
  guar_apply guar_modify. intros s. apply Henv.
Qed.

Lemma guar_env_render mode : guarantees G (env_render_M mode).
Proof.
  unfold env_render_M. guar_step; [guar_step |].
  destruct (env_render mode (env a)). guar_step; [| guar_step].
  guar_apply guar_modify. intros s. apply Henv.
Qed.

Lemma guar_env_training b : guarantees G (env_training b).
Proof. guar_apply guar_modify. intros s. apply Henv. Qed.

Lemma guar_write_file path f : guarantees G (write_file path f).
Proof. guar_apply guar_modify. intros s. apply frame_fs. Qed.

Lemma guar_getattr name : guarantees G (getattr name).
Proof. unfold getattr. repeat guar_step. Qed.

Lemma guar_undefined_attr {A} name : guarantees G (undefined_attr (A := A) name).
Proof. unfold undefined_attr. guar_step; [apply guar_getattr | guar_step]. Qed.

Lemma guar_rb_sample n : guarantees G (rb_sample n).
Proof.
  unfold rb_sample. guar_step; [guar_step |].
  destruct (sample_indices _ _ _). repeat guar_step.
  guar_apply guar_modify. intros s. apply frame_rng.
Qed.

Lemma guar_save_weights best fname : guarantees G (save_weights best fname).
Proof.
  unfold save_weights, state_dict, rb_save.
  repeat first [apply guar_write_file | guar_step].
Qed.

Lemma guar_sac_losses e : guarantees G (sac_losses e).
Proof.
  unfold sac_losses. destruct e as [[[[obs options] rewards] next_obs] done].
  repeat first
    [ apply guar_call
    | guar_apply guar_modify; intros ?; first [apply frame_oc_mode | apply frame_oc_targ_mode]
    | guar_step ].
Qed.

End FrameRules.

(** Frame rules for the methods, for a relation that tolerates the benign
    effects and for which the four kinds of writes are accounted for by the
    hypotheses. *)
Section MethodRules.
Context {C : Collaborators}.
Context (G : relation Trainer) `{!FrameRel G}.
#[local] Existing Instance frame_preorder.

Hypothesis Hopt : forall before e, guarantees G (optimizer_update before e).
Hypothesis Hpol : guarantees G update_target_network.
Hypothesis Happ : forall s tr,
  G s (set_replay_buffer (rb_append tr (replay_buffer s)) s).
Hypothesis Hbest : forall s m,
  float_gtb (Some m) (best_mean_reward s) = true ->
  G s (set_best_mean_reward (Fin m) s).
Hypothesis Henv : forall s e, G s (set_env e s).

Lemma guar_sac_update e : guarantees G (sac_update e).
Proof.
  unfold sac_update.
  repeat first
    [ apply guar_sac_losses; typeclasses eauto
    | apply Hopt | apply Hpol
    | guar_apply guar_modify; intros ?; apply frame_logger
    | guar_step ].
Qed.

Lemma guar_step_update timestep : guarantees G (step_update timestep).
Proof.
  unfold step_update.
  repeat first
    [ apply guar_sac_update
    | apply guar_rb_sample; typeclasses eauto
    | guar_step ].
Qed.

Lemma guar_step_act timestep l : guarantees G (step_act timestep l).
Proof.
  unfold step_act.
  repeat first
    [ apply guar_call; typeclasses eauto
    | apply guar_env_step; first [typeclasses eauto | exact Henv]
    | guar_apply guar_modify; intros ?; apply Happ
    | guar_step ].
Qed.

Lemma guar_new_best_model trial_num mean_reward :
  guarantees G (new_best_model trial_num mean_reward).
Proof.
  intros s r s' H. unfold new_best_model in H.
  rewrite run_bind in H. simpl in H.
  destruct (float_gtb mean_reward (best_mean_reward s)) eqn:Hgt.
  - destruct mean_reward as [m |]; [| inversion H; subst; reflexivity].
    rewrite run_bind in H. simpl in H.
    transitivity (set_best_mean_reward (Fin m) s); [by apply Hbest |].
    eapply guar_save_weights; [typeclasses eauto | exact H].
  - inversion H; subst. reflexivity.
Qed.

Lemma guar_step_episode_end trial_num l done :
  guarantees G (step_episode_end trial_num l done).
Proof.
  unfold step_episode_end.
  guar_step; [guar_step |].
  destruct (done || bool_decide (ep_len l = max_ep_len (cfg a))); [| guar_step].
  guar_step; [guar_apply guar_modify; intros ?; apply frame_logger |].
  guar_step; [apply guar_env_reset; first [typeclasses eauto | exact Henv] |].
  guar_step; [guar_step |].
  destruct (logger_load_results _ _) as [x y].
  repeat first
    [ apply guar_new_best_model
    | guar_apply guar_modify; intros ?; apply frame_logger
    | guar_step ].
Qed.

Lemma guar_learn_step trial_num timestep l :
  guarantees G (learn_step trial_num timestep l).
Proof.
  unfold learn_step.
  guar_step; [apply guar_step_act |]. destruct a as [l1 done].
  guar_step; [apply guar_step_update | apply guar_step_episode_end].
Qed.

Lemma guar_trial_loop trial_num timesteps l :
  guarantees G (trial_loop trial_num timesteps l).
Proof.
  revert l. induction timesteps as [| t rest IH]; intros l; simpl.
  - guar_step.
  - guar_step; [apply guar_learn_step |]. destruct a; [apply IH | guar_step].
Qed.

Lemma guar_trial_start : guarantees G trial_start.
Proof.
  unfold trial_start.
  repeat first
    [ apply guar_env_reset; first [typeclasses eauto | exact Henv]
    | guar_apply guar_modify; intros ?; first [apply frame_oc_mode | apply frame_oc_targ_mode]
    | guar_step ].
Qed.

Lemma guar_learn_one_trial timesteps trial_num :
  guarantees G (learn_one_trial timesteps trial_num).
Proof.
  unfold learn_one_trial.
  guar_step; [apply guar_trial_start |].
  guar_step; [apply guar_trial_loop | guar_step].
Qed.

Lemma guar_evaluate_step l : guarantees G (evaluate_step l).
Proof.
  unfold evaluate_step.
  repeat first
    [ apply guar_undefined_attr; typeclasses eauto
    | apply guar_env_step; first [typeclasses eauto | exact Henv]
    | guar_step ].
Qed.

Lemma guar_test_step record l : guarantees G (test_step record l).
Proof.
  unfold test_step.
  repeat first
    [ apply guar_undefined_attr; typeclasses eauto
    | apply guar_env_step; first [typeclasses eauto | exact Henv]
    | apply guar_env_render; first [typeclasses eauto | exact Henv]
    | guar_step ].
Qed.

Lemma guar_while_episode fuel body l :
  (forall l, guarantees G (body l)) -> guarantees G (while_episode fuel body l).
Proof.
  intros Hb. revert l. induction fuel as [| fuel IH]; intros l; simpl.
  - repeat guar_step.
  - guar_step; [guar_step |].
    destruct (ts_done l || bool_decide (ts_ep_len l = max_ep_len (cfg a))); [guar_step |].
    guar_step; [apply Hb | apply IH].
Qed.

Lemma guar_test_for n record l : guarantees G (test_for n record l).
Proof.
  revert l. induction n as [| n IH]; intros l; simpl.
  - guar_step.
  - guar_step; [apply guar_test_step | apply IH].
Qed.

Lemma guar_evaluate_agent fuel : guarantees G (evaluate_agent fuel).
Proof.
  unfold evaluate_agent.
  repeat first
    [ apply guar_env_training; first [typeclasses eauto | exact Henv]
    | apply guar_undefined_attr; typeclasses eauto
    | apply guar_env_reset; first [typeclasses eauto | exact Henv]
    | apply guar_while_episode; intros ?; apply guar_evaluate_step
    | guar_apply guar_modify; intros ?; apply frame_logger
    | guar_step ].
Qed.

Lemma guar_test fuel timesteps render record :
  guarantees G (test fuel timesteps render record).
Proof.
  unfold test.
  repeat first
    [ apply guar_env_training; first [typeclasses eauto | exact Henv]
    | apply guar_env_reset; first [typeclasses eauto | exact Henv]
    | apply guar_env_render; first [typeclasses eauto | exact Henv]
    | apply guar_write_file; typeclasses eauto
    | apply guar_test_for
    | apply guar_while_episode; intros ?; apply guar_test_step
    | guar_apply guar_modify; intros ?; first [apply frame_oc_mode | apply frame_oc_targ_mode]
    | guar_step ].
Qed.

Hypothesis Hreinit : guarantees G reinit_network.

Lemma guar_learn_trials timesteps trials best_reward_trial :
  guarantees G (learn_trials timesteps trials best_reward_trial).
Proof.
  revert best_reward_trial. induction trials as [| t rest IH]; intros b; simpl.
  - guar_step.
  - repeat first
      [ apply guar_learn_one_trial
      | apply guar_save_weights; typeclasses eauto
      | apply Hreinit
      | apply IH
      | guar_apply guar_modify; intros ?; apply frame_logger
      | guar_step ].
Qed.

Lemma guar_learn timesteps num_trials : guarantees G (learn timesteps num_trials).
Proof.
  unfold learn.
  guar_step; [apply guar_env_training; first [typeclasses eauto | exact Henv] | apply guar_learn_trials].
Qed.

End MethodRules.

(** *** Relations used below *)

Section Relations.
Context {C : Collaborators}.

#[local] Instance unchanged_preorder {X} (f : Trainer -> X) : PreOrder (unchanged f).
Proof.
  split.
  - intros s. reflexivity.
  - intros s1 s2 s3 H1 H2. unfold unchanged in *. congruence.
Qed.

Lemma unchanged_frame {X} (f : Trainer -> X) :
  (forall s g, f (set_rng g s) = f s) ->
  (forall s n, f (set_oc (set_mode n (oc s)) s) = f s) ->
  (forall s n, f (set_oc_targ (set_mode n (oc_targ s)) s) = f s) ->
  (forall s x, f (set_logger x s) = f s) ->
  (forall s x, f (set_fs x s) = f s) ->
  FrameRel (unchanged f).
Proof. intros. split; try done. apply _. Qed.

#[local] Instance replay_buffer_frame : FrameRel (unchanged replay_buffer).
Proof. by apply unchanged_frame. Qed.

#[local] Instance cfg_frame : FrameRel (unchanged cfg).
Proof. by apply unchanged_frame. Qed.

Lemma env_step_M_run a s :
  env_step_M a s = (Ok (env_step a (env s)).1, set_env (env_step a (env s)).2 s).
Proof.
  unfold env_step_M. rewrite run_bind. simpl.
  destruct (env_step a (env s)) as [x e]. reflexivity.
Qed.

Lemma env_reset_M_run s :
  env_reset_M s = (Ok (env_reset (env s)).1, set_env (env_reset (env s)).2 s).
Proof.
  unfold env_reset_M. rewrite run_bind. simpl.
  destruct (env_reset (env s)) as [x e]. reflexivity.
Qed.

(** The first block of the loop body, run on a state: either the lookup
    of the current option in [option_lengths] fails, or an option and an
    action are computed from [obs l], the environment is stepped once, and
    the transition that starts at [obs l] is stored. *)
Lemma step_act_inv timestep l s r s' :
  step_act timestep l s = (r, s') ->
  let W := weights (heap s) (oc s) in
  let b := net_training (oc s) in
  let eps := update_epsilon s (epsilon l) (IZR timestep) in
  (r = Raise KeyError /\ s' = s /\ option_termination l = true /\
   option_lengths l !! current_option l = None) \/
  exists opt g1 a g2 nobs reward done e1 term g3 lens',
    (if option_termination l
     then get_option W b (obs l) eps (rng s) = (opt, g1) /\
          exists lens, option_lengths l !! current_option l = Some lens /\
            lens' = <[current_option l := lens ++ [curr_op_len l]]> (option_lengths l)
     else opt = current_option l /\ g1 = rng s /\ lens' = option_lengths l) /\
    get_action W b (obs l) opt g1 = (a, g2) /\
    env_step a (env s) = ((nobs, reward, done), e1) /\
    predict_option_termination W b nobs opt g2 = (term, g3) /\
    let done' := if bool_decide (ep_len l + 1 = max_ep_len (cfg s))%Z then false else done in
    s' = set_rng g3 (set_replay_buffer
           (rb_append (mkTransition (obs l) opt reward nobs done') (replay_buffer s))
           (set_env e1 (set_rng g2 (set_rng g1 s)))) /\
    r = Ok (mkLocals eps nobs (ep_ret l + reward) (ep_len l + 1)
              (if option_termination l then 0%Z else curr_op_len l)
              term opt (episode l) lens' (state l), done').
Proof.
  intros H W b eps. unfold step_act in H.
  rewrite run_bind in H. unfold get at 1 in H. cbv beta iota in H.
  assert (Htail : forall opt col lens' s0,
    heap s0 = heap s -> oc s0 = oc s -> env s0 = env s ->
    (call oc (fun W b => get_action W b (obs l) opt)
       ≫= fun action => env_step_M action
       ≫= fun '(next_obs, reward, done) =>
            modify (fun s0 => set_replay_buffer
              (rb_append (mkTransition (obs l) opt reward next_obs
                 (if bool_decide ((ep_len l + 1)%Z = max_ep_len (cfg s)) then false else done))
                 (replay_buffer s0)) s0)
            ≫= fun _ => call oc (fun W b => predict_option_termination W b next_obs opt)
            ≫= fun option_termination =>
                 mret (mkLocals eps next_obs (ep_ret l + reward) (ep_len l + 1) col
                         option_termination opt (episode l) lens' (state l),
                       if bool_decide ((ep_len l + 1)%Z = max_ep_len (cfg s)) then false else done))
      s0 = (r, s') ->
    exists a g2 nobs reward done e1 term g3,
      get_action W b (obs l) opt (rng s0) = (a, g2) /\
      env_step a (env s) = ((nobs, reward, done), e1) /\
      predict_option_termination W b nobs opt g2 = (term, g3) /\
      let done' := if bool_decide (ep_len l + 1 = max_ep_len (cfg s))%Z then false else done in
      s' = set_rng g3 (set_replay_buffer
             (rb_append (mkTransition (obs l) opt reward nobs done') (replay_buffer s0))
             (set_env e1 (set_rng g2 s0))) /\
      r = Ok (mkLocals eps nobs (ep_ret l + reward) (ep_len l + 1) col
                term opt (episode l) lens' (state l), done')).
  { intros opt col lens' s0 Hh Ho He Ht.
    rewrite run_bind, call_run in Ht. rewrite Hh, Ho in Ht. fold W b in Ht.
    destruct (get_action W b (obs l) opt (rng s0)) as [a g2] eqn:Ea. cbn [fst snd] in Ht.
    rewrite run_bind, env_step_M_run in Ht. cbn [fst snd env set_rng] in Ht.
    rewrite He in Ht.
    destruct (env_step a (env s)) as [[[nobs reward] done] e1] eqn:Ee. cbn [fst snd] in Ht.
    rewrite run_bind in Ht. unfold modify at 1 in Ht.
    rewrite run_bind, call_run in Ht.
    cbn [fst snd heap oc rng set_rng set_env set_replay_buffer] in Ht.
    rewrite Hh, Ho in Ht. fold W b in Ht.
    destruct (predict_option_termination W b nobs opt g2) as [term g3] eqn:Ep.
    cbn [fst snd] in Ht.
    inversion Ht; subst r s'.
    exists a, g2, nobs, reward, done, e1, term, g3. repeat split; done. }
  destruct (option_termination l) eqn:Hterm.
  - destruct (option_lengths l !! current_option l) as [lens |] eqn:Hl.
    + right. rewrite run_bind in H. rewrite (run_bind (call _ _)), call_run in H.
      fold W b eps in H.
      destruct (get_option W b (obs l) eps (rng s)) as [opt g1] eqn:Eo.
      cbn [fst snd] in H. rewrite run_ret in H.
      apply Htail in H as (a & g2 & nobs & reward & done & e1 & term & g3 & H1 & H2 & H3 & H4 & H5);
        [| reflexivity | reflexivity | reflexivity].
      eexists opt, g1, a, g2, nobs, reward, done, e1, term, g3, _.
      repeat split; eauto.
    + left. rewrite run_bind in H. inversion H. done.
  - right. rewrite run_bind, run_ret in H.
    destruct (Htail _ _ _ s eq_refl eq_refl eq_refl H)
      as (a & g2 & nobs & reward & done & e1 & term & g3 & H1 & H2 & H3 & H4 & H5).
    eexists (current_option l), (rng s), a, g2, nobs, reward, done, e1, term, g3, _.
    repeat split; eauto.
Qed.

End Relations.

(** *** The targets and losses of sac_update *)

Section SacTheorems.
Context {C : Collaborators}.

#[local] Existing Instance replay_buffer_frame.

Lemma bootstrap_target_terminal gam r u :
  bootstrap_target gam r (done_to_float true) u = r.
Proof. unfold bootstrap_target, done_to_float. ring. Qed.

Lemma bootstrap_target_running gam r u :
  bootstrap_target gam r (done_to_float false) u = r + gam * u.
Proof. unfold bootstrap_target, done_to_float. ring. Qed.

(** After the first block of the loop body nothing touches the replay
    store. *)
Lemma step_rest_replay trial_num timestep l1 done :
  guarantees (unchanged replay_buffer)
    (step_update timestep ≫= fun _ => step_episode_end trial_num l1 done).
Proof.
  assert (Hopt : forall before e,
            guarantees (unchanged replay_buffer) (optimizer_update before e)).
  { intros before e. unfold optimizer_update. guar_step; [guar_step |].
    destruct (optimizer_step _ _ _ _ _ _).
    repeat first [guar_apply guar_modify; intros ?; reflexivity | guar_step]. }
  assert (Hpol : guarantees (unchanged replay_buffer) update_target_network).
  { unfold update_target_network, mul_, add_.
    repeat first [guar_apply guar_modify; intros ?; reflexivity | guar_step]. }
  guar_step.
  - apply guar_step_update; try done. apply _.
  - apply guar_step_episode_end; try done. apply _.
Qed.

(** The transition stored by one iteration of the training loop. *)
Lemma learn_step_stores trial_num timestep l s r s' :
  learn_step trial_num timestep l s = (r, s') ->
  (r = Raise KeyError /\ replay_buffer s' = replay_buffer s) \/
  exists a opt nobs reward done e1,
    env_step a (env s) = ((nobs, reward, done), e1) /\
    replay_buffer s' =
      rb_append (mkTransition (obs l) opt reward nobs
                   (if bool_decide (ep_len l + 1 = max_ep_len (cfg s))%Z
                    then false else done))
                (replay_buffer s).
Proof.
  intros H. unfold learn_step in H. rewrite run_bind in H.
  destruct (step_act timestep l s) as [[[l1 done] | e] s1] eqn:E.
  - apply step_act_inv in E
      as [(? & _) | (opt & g1 & a & g2 & nobs & reward & d & e1 & term & g3 & lens' &
                     _ & _ & He & _ & Hs & _)]; [discriminate |].
    right. exists a, opt, nobs, reward, d, e1. split; [exact He |].
    apply step_rest_replay in H. unfold unchanged in H. rewrite H, Hs. reflexivity.
  - inversion H; subst r s'.
    apply step_act_inv in E as [(Hr & Hs & _) | (? & ? & ? & ? & ? & ? & ? & ? & ? & ? & ? &
                                                 _ & _ & _ & _ & _ & ?)]; [| discriminate].
    left. inversion Hr; subst. done.
Qed.




End SacTheorems.

(** *** update_target_network *)

Section Polyak.
Context {C : Collaborators}.

Lemma read_data_alter_eq (h : gmap nat Param) id v (g : Param -> bool) :
  read_data (alter (fun q => mkParam v (g q)) id h) id
  = match h !! id with Some _ => v | None => [] end.
Proof.
  unfold read_data. rewrite lookup_total_alter_eq.
  destruct (h !! id); reflexivity.
Qed.

Lemma read_data_alter_ne (h : gmap nat Param) id id' (f : Param -> Param) :
  id <> id' -> read_data (alter f id h) id' = read_data h id'.
Proof. intros Hne. unfold read_data. by rewrite lookup_total_alter_ne. Qed.

Lemma read_data_None (h : gmap nat Param) id : h !! id = None -> read_data h id = [].
Proof. intros H. unfold read_data. rewrite lookup_total_alt, H. reflexivity. Qed.

Lemma Forall2_impl_elem {A B} (P Q : A -> B -> Prop) (l : list A) (k : list B) :
  Forall2 P l k ->
  (forall x y, x ∈ l -> y ∈ k -> P x y -> Q x y) ->
  Forall2 Q l k.
Proof.
  induction 1 as [| x y l k Hxy _ IH]; intros HPQ; constructor.
  - apply HPQ; [apply list_elem_of_here .. | done].
  - apply IH. intros x' y' Hx' Hy'. apply HPQ; by apply list_elem_of_further.
Qed.

(** The two in-place statements on one pair of parameters. *)
Lemma polyak_pair_run (pk : R) (p p_targ : nat) (s : Trainer) :
  p <> p_targ ->
  length (read_data (heap s) p) = length (read_data (heap s) p_targ) ->
  exists h',
    (mul_ p_targ pk ≫= fun _ => get ≫= fun s1 =>
       add_ p_targ (scalar_mul (1 - pk) (read_data (heap s1) p))) s
    = (Ok tt, set_heap h' s) /\
    read_data h' p_targ
    = zip_with (fun x_targ x => pk * x_targ + (1 - pk) * x)
        (read_data (heap s) p_targ) (read_data (heap s) p) /\
    (forall id, id <> p_targ -> h' !! id = heap s !! id) /\
    (forall id q', h' !! id = Some q' ->
       exists q, heap s !! id = Some q /\ requires_grad q' = requires_grad q).
Proof.
  intros Hne Hlen.
  set (h1 := alter (fun q => mkParam (mul_scalar (p_data q) pk) (requires_grad q))
               p_targ (heap s)).
  assert (Hp : read_data h1 p = read_data (heap s) p).
  { unfold h1. by rewrite read_data_alter_ne. }
  assert (Ht : read_data h1 p_targ = mul_scalar (read_data (heap s) p_targ) pk).
  { unfold h1, read_data. rewrite lookup_total_alter_eq, lookup_total_alt.
    destruct (heap s !! p_targ); reflexivity. }
  set (v := zip_with Rplus (read_data h1 p_targ) (scalar_mul (1 - pk) (read_data h1 p))).
  exists (alter (fun q => mkParam v (requires_grad q)) p_targ h1).
  split; [| split; [| split]].
  - rewrite run_bind. unfold mul_ at 1, modify at 1. cbv beta iota.
    rewrite run_bind. unfold get at 1. cbv beta iota.
    unfold add_. rewrite run_bind. unfold get at 1. cbv beta iota.
    cbn [heap set_heap]. fold h1.
    rewrite run_bind. unfold lift at 1, tadd, elementwise.
    rewrite decide_True.
    + cbv beta iota. unfold modify. cbn [heap set_heap]. fold h1 v.
      reflexivity.
    + rewrite Ht, Hp. unfold mul_scalar, scalar_mul. rewrite !length_fmap. lia.
  - rewrite read_data_alter_eq.
    destruct (h1 !! p_targ) as [q |] eqn:Eq.
    + unfold v. rewrite Ht, Hp. unfold mul_scalar, scalar_mul.
      rewrite zip_with_fmap_l, zip_with_fmap_r.
      apply zip_with_ext; [intros; ring | done | done].
    + assert (Hn : heap s !! p_targ = None).
      { unfold h1 in Eq. rewrite lookup_alter_eq in Eq.
        by destruct (heap s !! p_targ). }
      by rewrite (read_data_None _ _ Hn).
  - intros id Hid. unfold h1. by rewrite !lookup_alter_ne.
  - intros id q' Hq'. destruct (decide (id = p_targ)) as [-> | Hid].
    + rewrite lookup_alter_eq in Hq'. unfold h1 in Hq'. rewrite lookup_alter_eq in Hq'.
      destruct (heap s !! p_targ) as [q |]; [| discriminate].
      exists q. split; [done |]. simpl in Hq'. by inversion Hq'.
    + unfold h1 in Hq'. rewrite !lookup_alter_ne in Hq' by done. eauto.
Qed.

(** The loop, for parameter lists that are disjoint and of matching shapes. *)
Lemma polyak_loop_run (pk : R) (ps pts : list nat) (s : Trainer) :
  NoDup pts ->
  (forall id, id ∈ pts -> id ∉ ps) ->
  Forall2 (fun p pt => length (read_data (heap s) p) = length (read_data (heap s) pt))
          ps pts ->
  exists h',
    for_each (zip ps pts)
      (fun '(p, p_targ) => mul_ p_targ pk ≫= fun _ => get ≫= fun s1 =>
         add_ p_targ (scalar_mul (1 - pk) (read_data (heap s1) p))) s
    = (Ok tt, set_heap h' s) /\
    (forall k p pt, ps !! k = Some p -> pts !! k = Some pt ->
       read_data h' pt
       = zip_with (fun x_targ x => pk * x_targ + (1 - pk) * x)
           (read_data (heap s) pt) (read_data (heap s) p)) /\
    (forall id, id ∉ pts -> h' !! id = heap s !! id) /\
    (forall id q', h' !! id = Some q' ->
       exists q, heap s !! id = Some q /\ requires_grad q' = requires_grad q).
Proof.
  intros Hnd Hdisj HF. revert s Hnd Hdisj HF.
  generalize dependent pts. induction ps as [| p ps IH]; intros pts s Hnd Hdisj HF.
  - inversion HF; subst. exists (heap s). simpl. split_and!.
    + rewrite run_ret. f_equal. by destruct s.
    + intros k p pt Hk. by rewrite lookup_nil in Hk.
    + done.
    + eauto.
  - inversion HF as [| p' pt ps' pts' Hlen HF' ]; subst.
    apply NoDup_cons in Hnd as [Hnotin Hnd'].
    assert (Hne : p <> pt).
    { intros ->. apply (Hdisj pt); apply list_elem_of_here. }
    destruct (polyak_pair_run pk p pt s Hne Hlen) as (h1 & Hrun1 & Hval1 & Hfr1 & Hflag1).
    assert (Hsame : forall id, id <> pt ->
              read_data h1 id = read_data (heap s) id).
    { intros id Hid. unfold read_data. rewrite !lookup_total_alt. by rewrite Hfr1. }
    destruct (IH pts' (set_heap h1 s)) as (h2 & Hrun2 & Hval2 & Hfr2 & Hflag2).
    + done.
    + intros id Hin Hin'. apply (Hdisj id); by apply list_elem_of_further.
    + cbn [heap set_heap]. eapply Forall2_impl_elem; [exact HF' |].
      intros x y Hx Hy Hxy. rewrite !Hsame; [done | |].
      * intros ->. by apply Hnotin.
      * intros ->. apply (Hdisj pt); [apply list_elem_of_here | by apply list_elem_of_further].
    + exists h2. split_and!.
      * simpl. rewrite run_bind.
        change ((mul_ pt pk ≫= fun _ => get ≫= fun s1 =>
                   add_ pt (scalar_mul (1 - pk) (read_data (heap s1) p))) s)
          with ((fun '(p, p_targ) => mul_ p_targ pk ≫= fun _ => get ≫= fun s1 =>
                   add_ p_targ (scalar_mul (1 - pk) (read_data (heap s1) p))) (p, pt) s).
        cbv beta iota. rewrite Hrun1. cbv beta iota.
        rewrite Hrun2. reflexivity.
      * intros [| k] q qt Hq Hqt; simpl in Hq, Hqt.
        -- inversion Hq; inversion Hqt; subst.
           assert (E : read_data h2 qt = read_data h1 qt).
           { unfold read_data. rewrite !lookup_total_alt. by rewrite Hfr2. }
           by rewrite E.
        -- rewrite (Hval2 k q qt Hq Hqt). cbn [heap set_heap].
           rewrite !Hsame; [done | |].
           ++ intros ->. apply (Hdisj pt); [apply list_elem_of_here |].
              apply list_elem_of_further. by eapply list_elem_of_lookup_2.
           ++ intros ->. apply Hnotin. by eapply list_elem_of_lookup_2.
      * intros id Hid. rewrite Hfr2, Hfr1; [done | |].
        -- intros ->. apply Hid, list_elem_of_here.
        -- intros Hin. by apply Hid, list_elem_of_further.
      * intros id q' Hq'. destruct (Hflag2 id q' Hq') as (q1 & Hq1 & Hf1).
        destruct (Hflag1 id q1 Hq1) as (q & Hq & Hf). exists q. split; [done | congruence].
Qed.

End Polyak.

Section PolyakTheorem.
Context {C : Collaborators}.

Lemma zip_with_polyak_one (a b : list R) :
  length b = length a ->
  zip_with (fun x_targ x => 1 * x_targ + (1 - 1) * x) a b = a.
Proof.
  revert b. induction a as [| x a IH]; intros [| y b] Hl; simpl in *; try done.
  f_equal; [ring | apply IH; lia].
Qed.

Lemma zip_with_polyak_zero (a b : list R) :
  length b = length a ->
  zip_with (fun x_targ x => 0 * x_targ + (1 - 0) * x) a b = b.
Proof.
  revert b. induction a as [| x a IH]; intros [| y b] Hl; simpl in *; try done.
  f_equal; [ring | apply IH; lia].
Qed.

(** C3.  One call of [update_target_network] replaces the data of every
    target parameter by [polyak * p_targ + (1 - polyak) * p], elementwise,
    [p] being the model parameter at the same position, and writes nothing
    else; with [polyak = 1] the target keeps its values, with [polyak = 0]
    it becomes a copy of the model.  The two parameter lists are those of a
    network and of its deep copy: distinct objects, pairwise of one shape. *)
Theorem update_target_network_polyak (s : Trainer) :
  NoDup (net_params (oc_targ s)) ->
  (forall id, id ∈ net_params (oc_targ s) -> id ∉ net_params (oc s)) ->
  Forall2 (fun p pt => length (read_data (heap s) p) = length (read_data (heap s) pt))
          (net_params (oc s)) (net_params (oc_targ s)) ->
  exists s',
    update_target_network s = (Ok tt, s') /\
    s' = set_heap (heap s') s /\
    (forall k p pt,
       net_params (oc s) !! k = Some p -> net_params (oc_targ s) !! k = Some pt ->
       read_data (heap s') pt
       = zip_with (fun x_targ x => polyak (cfg s) * x_targ + (1 - polyak (cfg s)) * x)
           (read_data (heap s) pt) (read_data (heap s) p)) /\
    (forall id, id ∉ net_params (oc_targ s) -> heap s' !! id = heap s !! id) /\
    (polyak (cfg s) = 1 ->
       weights (heap s') (oc_targ s') = weights (heap s) (oc_targ s)) /\
    (polyak (cfg s) = 0 ->
       weights (heap s') (oc_targ s') = weights (heap s) (oc s)).
Proof.
  intros Hnd Hdisj HF.
  destruct (polyak_loop_run (polyak (cfg s)) _ _ s Hnd Hdisj HF)
    as (h' & Hrun & Hval & Hfr & _).
  exists (set_heap h' s).
  assert (Hw : forall f : list R -> list R -> list R,
            (forall k p pt, net_params (oc s) !! k = Some p ->
               net_params (oc_targ s) !! k = Some pt ->
               read_data h' pt = f (read_data (heap s) pt) (read_data (heap s) p)) ->
            weights h' (oc_targ s)
            = zip_with (fun pt p => f (read_data (heap s) pt) (read_data (heap s) p))
                (net_params (oc_targ s)) (net_params (oc s))).
  { intros f Hf. unfold weights. apply list_eq. intros k.
    rewrite list_lookup_fmap, lookup_zip_with.
    destruct (net_params (oc_targ s) !! k) as [pt |] eqn:Ept; simpl; [| done].
    destruct (net_params (oc s) !! k) as [p |] eqn:Ep; simpl.
    - by rewrite (Hf k p pt).
    - apply Forall2_length in HF. apply lookup_lt_Some in Ept.
      apply lookup_ge_None in Ep. lia. }
  split_and!.
  - unfold update_target_network. rewrite run_bind. unfold get at 1. cbv beta iota.
    exact Hrun.
  - reflexivity.
  - exact Hval.
  - exact Hfr.
  - intros Hpk. cbn [heap oc_targ set_heap]. rewrite (Hw _ Hval), Hpk.
    unfold weights. apply list_eq. intros k.
    rewrite list_lookup_fmap, lookup_zip_with.
    destruct (net_params (oc_targ s) !! k) as [pt |] eqn:Ept; simpl; [| done].
    destruct (Forall2_lookup_r _ _ _ _ _ HF Ept) as (p & Ep & Hlen).
    rewrite Ep. simpl. by rewrite zip_with_polyak_one.
  - intros Hpk. cbn [heap oc_targ set_heap]. rewrite (Hw _ Hval), Hpk.
    unfold weights. apply list_eq. intros k.
    rewrite list_lookup_fmap, lookup_zip_with.
    destruct (net_params (oc s) !! k) as [p |] eqn:Ep; simpl.
    + destruct (Forall2_lookup_l _ _ _ _ _ HF Ep) as (pt & Ept & Hlen).
      rewrite Ept. simpl. by rewrite zip_with_polyak_zero.
    + by destruct (net_params (oc_targ s) !! k).
Qed.

End PolyakTheorem.

(** *** reinit_network and best_mean_reward *)

Section Reinit.
Context {C : Collaborators}.

Lemma new_option_critic_run s :
  exists ps g ids h n,
    oc_construct (rng s) = (ps, g) /\
    alloc ps (heap s) (next_id s) = (ids, h, n) /\
    new_option_critic s = (Ok (mkNet ids true), set_rng g (set_next_id n (set_heap h s))).
Proof.
  unfold new_option_critic. rewrite run_bind. unfold get at 1. cbv beta iota.
  destruct (oc_construct (rng s)) as [ps g] eqn:E1.
  destruct (alloc ps (heap s) (next_id s)) as [[ids h] n] eqn:E2.
  exists ps, g, ids, h, n. split_and!; first [assumption | reflexivity].
Qed.

Lemma deepcopy_run net s :
  exists ids h n,
    alloc ((fun id => heap s !!! id) <$> net_params net) (heap s) (next_id s) = (ids, h, n) /\
    deepcopy net s = (Ok (mkNet ids (net_training net)), set_next_id n (set_heap h s)).
Proof.
  unfold deepcopy. rewrite run_bind. unfold get at 1. cbv beta iota.
  destruct (alloc _ (heap s) (next_id s)) as [[ids h] n] eqn:E.
  exists ids, h, n. split; first [assumption | reflexivity].
Qed.

(** [reinit_network] always returns; what it leaves behind. *)
Lemma reinit_network_run s :
  exists s',
    reinit_network s = (Ok tt, s') /\
    best_mean_reward s' = NegInf /\
    replay_buffer s' = ReplayBuffer_new (replay_size (cfg s)) /\
    cfg s' = cfg s /\ env s' = env s /\ logger s' = logger s /\ fs s' = fs s.
Proof.
  unfold reinit_network.
  rewrite run_bind. unfold modify at 1. cbv beta iota.
  destruct (new_option_critic_run (set_best_mean_reward NegInf s))
    as (ps & g & ids & h & n & _ & _ & Hnew).
  rewrite run_bind, Hnew. cbv beta iota.
  rewrite run_bind. unfold modify at 1. cbv beta iota.
  rewrite run_bind.
  match goal with |- context [deepcopy ?net ?st] =>
    destruct (deepcopy_run net st) as (ids' & h' & n' & _ & Hcopy) end.
  rewrite Hcopy. cbv beta iota.
  rewrite run_bind. unfold modify at 1. cbv beta iota.
  rewrite run_bind. unfold freeze at 1, modify at 1. cbv beta iota.
  rewrite run_bind. unfold modify at 1. cbv beta iota.
  unfold modify.
  eexists. split; [reflexivity |]. split_and!; reflexivity.
Qed.

Lemma float_gtb_lt m b : float_gtb (Some m) b = true -> ExtR_lt b (Fin m).
Proof.
  destruct b as [| y]; simpl; [done |].
  unfold Rltb. by destruct (Rlt_dec y m).
Qed.

#[local] Instance best_grows_preorder : PreOrder best_grows.
Proof.
  split.
  - intros s. by left.
  - intros s1 s2 s3 [H1 | H1] [H2 | H2]; unfold best_grows in *.
    + left. congruence.
    + right. by rewrite <- H1.
    + right. by rewrite H2.
    + right. destruct (best_mean_reward s1), (best_mean_reward s2),
        (best_mean_reward s3); simpl in *; try done. lra.
Qed.

#[local] Instance best_grows_frame : FrameRel best_grows.
Proof. split; try apply _; intros; by left. Qed.

End Reinit.

(** Frame rules for a relation that does not look at the contents of the
    object store, of the optimizer or of the replay store. *)
Section StoreRules.
Context {C : Collaborators}.
Context (G : relation Trainer) `{!FrameRel G}.
#[local] Existing Instance frame_preorder.

Hypothesis Hheap : forall s h, G s (set_heap h s).
Hypothesis Hoptset : forall s o, G s (set_optimizer o s).
Hypothesis Hrb : forall s rb, G s (set_replay_buffer rb s).
Hypothesis Henv : forall s e, G s (set_env e s).

Lemma guar_optimizer_update_store before e : guarantees G (optimizer_update before e).
Proof.
  unfold optimizer_update. guar_step; [guar_step |].
  destruct (optimizer_step _ _ _ _ _ _).
  repeat first [guar_apply guar_modify; intros ?; first [apply Hheap | apply Hoptset] | guar_step].
Qed.

Lemma guar_update_target_network_store : guarantees G update_target_network.
Proof.
  unfold update_target_network, mul_, add_.
  repeat first [guar_apply guar_modify; intros ?; apply Hheap | guar_step].
Qed.

Lemma guar_load_state_dict_store net sd : guarantees G (load_state_dict net sd).
Proof.
  unfold load_state_dict.
  repeat first [guar_apply guar_modify; intros ?; apply Hheap | guar_step].
Qed.

Lemma guar_load_weights_store best load_buffer : guarantees G (load_weights best load_buffer).
Proof.
  unfold load_weights, rb_load, torch_load.
  repeat first
    [ apply guar_load_state_dict_store
    | guar_apply guar_modify; intros ?;
      first [apply Hheap | apply Hoptset | apply Hrb | apply Henv]
    | guar_step ].
Qed.

End StoreRules.

Section BestMeanReward.
Context {C : Collaborators}.

#[local] Existing Instance best_grows_frame.

Lemma best_grows_call c s :
  match c with
  | Call_reinit_network | Call_learn _ _ => False
  | _ => True
  end ->
  best_grows s (after c s).
Proof.
  intros Hc. unfold after.
  destruct (run_call c s) as [r s'] eqn:E. cbn [snd].
  revert s r s' E. change (guarantees best_grows (run_call c)).
  assert (Hheap : forall s h, best_grows s (set_heap h s)) by (intros; by left).
  assert (Hoptset : forall s o, best_grows s (set_optimizer o s)) by (intros; by left).
  assert (Hrb : forall s rb, best_grows s (set_replay_buffer rb s)) by (intros; by left).
  assert (Henv : forall s e, best_grows s (set_env e s)) by (intros; by left).
  assert (Hopt : forall before e, guarantees best_grows (optimizer_update before e)).
  { intros. apply guar_optimizer_update_store; try done. apply _. }
  assert (Hpol : guarantees best_grows update_target_network).
  { apply guar_update_target_network_store; try done. apply _. }
  assert (Hbest : forall s m, float_gtb (Some m) (best_mean_reward s) = true ->
            best_grows s (set_best_mean_reward (Fin m) s)).
  { intros s0 m Hm. right. by apply float_gtb_lt. }
  destruct c; cbn [run_call].
  - done.
  - apply Hpol.
  - apply guar_sac_update; try done. apply _.
  - apply guar_evaluate_agent; try done. apply _.
  - apply guar_save_weights. apply _.
  - apply guar_load_weights_store; try done. apply _.
  - apply guar_learn_one_trial; try done. apply _.
  - done.
  - guar_step; [| guar_step]. apply guar_test; try done. apply _.
Qed.

(** C7.  [reinit_network] always returns, and leaves [best_mean_reward] at
    [-inf] and a new, empty replay store; every other method except
    [learn], which itself calls [reinit_network] after each trial, leaves
    [best_mean_reward] as it was or strictly larger. *)
Theorem reinit_resets_best_and_buffer :
  (forall s, exists s',
     reinit_network s = (Ok tt, s') /\
     best_mean_reward s' = NegInf /\
     rb_size (replay_buffer s') = 0%Z) /\
  (forall c s,
     match c with
     | Call_reinit_network | Call_learn _ _ => False
     | _ => True
     end ->
     best_mean_reward (after c s) = best_mean_reward s \/
     ExtR_lt (best_mean_reward s) (best_mean_reward (after c s))).
Proof.
  split.
  - intros s. destruct (reinit_network_run s) as (s' & Hrun & Hbest & Hrb & _).
    exists s'. split_and!; [done | done |]. by rewrite Hrb.
  - intros c s Hc. by apply best_grows_call.
Qed.

End BestMeanReward.

(** *** load_weights *)

Section LoadWeights.
Context {C : Collaborators}.

Lemma raises_only_bind {A B} P (m : M A) (f : A -> M B) :
  raises_only P m -> (forall a, raises_only P (f a)) -> raises_only P (m ≫= f).
Proof.
  intros Hm Hf s e s' H. rewrite run_bind in H.
  destruct (m s) as [[a | e'] s1] eqn:E.
  - by eapply Hf.
  - inversion H; subst. by eapply Hm.
Qed.

Lemma raises_only_total {A} P (m : M A) :
  (forall s, exists a s', m s = (Ok a, s')) -> raises_only P m.
Proof. intros Hm s e s' H. destruct (Hm s) as (a & s1 & E). congruence. Qed.

Lemma raises_only_raise {A} (P : exn -> Prop) e : P e -> raises_only P (raise (A := A) e).
Proof. intros He s e' s' H. inversion H; by subst. Qed.

(** Writing the data of some parameters leaves the others alone. *)
Lemma foldl_alter_other (f : list R -> Param -> Param) (pairs : list (nat * list R))
    (h : gmap nat Param) (id : nat) :
  id ∉ pairs.*1 ->
  foldl (fun h idv => alter (f idv.2) idv.1 h) h pairs !! id = h !! id.
Proof.
  revert h. induction pairs as [| [i v] pairs IH]; intros h Hid; simpl; [done |].
  rewrite IH.
  - apply lookup_alter_ne. intros ->. apply Hid. simpl. apply list_elem_of_here.
  - intros Hin. apply Hid. simpl. by apply list_elem_of_further.
Qed.

Lemma fst_zip_subseteq {A B} (l : list A) (k : list B) x :
  x ∈ (zip l k).*1 -> x ∈ l.
Proof.
  revert k. induction l as [| a l IH]; intros [| b k]; simpl; try by intros ?%elem_of_nil.
  intros [-> | Hin]%elem_of_cons; [apply list_elem_of_here |].
  apply list_elem_of_further. by eapply IH.
Qed.

Lemma load_state_dict_run net sd s :
  same_shapes (weights (heap s) net) sd = true ->
  exists h',
    load_state_dict net sd s = (Ok tt, set_heap h' s) /\
    (forall id, id ∉ net_params net -> h' !! id = heap s !! id).
Proof.
  intros Hsh. unfold load_state_dict. rewrite run_bind. unfold get at 1. cbv beta iota.
  rewrite Hsh. unfold modify. eexists. split; [reflexivity |].
  intros id Hid. apply (foldl_alter_other (fun v q => mkParam v (requires_grad q))).
  intros Hin. by apply Hid, (fst_zip_subseteq _ sd).
Qed.

Lemma weights_ext (h h' : gmap nat Param) net :
  (forall id, id ∈ net_params net -> h' !! id = h !! id) ->
  weights h' net = weights h net.
Proof.
  intros H. unfold weights. apply list_fmap_ext. intros i id Hid.
  unfold read_data. rewrite !lookup_total_alt, H; [done |].
  by eapply list_elem_of_lookup_2.
Qed.

(** The exceptions of [load_weights] when the checkpoint file is there come
    from the collaborators and from [load_state_dict]. *)
Lemma load_weights_raises best load_buffer s e s' :
  load_weights best load_buffer s = (Raise e, s') ->
  isfile s (path_join (save_dir (cfg s))
              (if best then "best.pth" else "model_weights.pth")%string) = true ->
  (exists who, e = CollaboratorError who) \/ (exists msg, e = RuntimeError msg).
Proof.
  intros H Hfile. unfold load_weights in H.
  rewrite run_bind in H. unfold get at 1 in H. cbv beta iota in H.
  rewrite Hfile in H. revert H.
  match goal with |- ?m ?st = _ -> _ =>
    cut (raises_only (fun e => (exists who, e = CollaboratorError who) \/
                               (exists msg, e = RuntimeError msg)) m);
      [intros Hr H; exact (Hr _ _ _ H) |] end.
  assert (Hmod : forall f, raises_only
            (fun e => (exists who, e = CollaboratorError who) \/
                      (exists msg, e = RuntimeError msg)) (modify f)).
  { intros f. apply raises_only_total. intros s0. by eexists _, _. }
  assert (Hget : raises_only
            (fun e => (exists who, e = CollaboratorError who) \/
                      (exists msg, e = RuntimeError msg)) get).
  { apply raises_only_total. intros s0. by eexists _, _. }
  assert (Hret : forall A (a : A), raises_only
            (fun e => (exists who, e = CollaboratorError who) \/
                      (exists msg, e = RuntimeError msg)) (mret a)).
  { intros A a. apply raises_only_total. intros s0. by eexists _, _. }
  assert (Hlsd : forall net sd, raises_only
            (fun e => (exists who, e = CollaboratorError who) \/
                      (exists msg, e = RuntimeError msg)) (load_state_dict net sd)).
  { intros net sd. unfold load_state_dict. apply raises_only_bind; [apply Hget |].
    intros s0. destruct (same_shapes _ _); [apply Hmod |].
    apply raises_only_raise. right. by eexists. }
  unfold rb_load, torch_load.
  repeat first
    [ apply Hmod | apply Hget | apply Hret | apply Hlsd
    | apply raises_only_raise; left; by eexists
    | apply raises_only_bind; [| intros ?]
    | match goal with
      | |- raises_only _ (match ?x with _ => _ end) => destruct x
      end ].
Qed.

End LoadWeights.

Section LoadWeightsTheorem.
Context {C : Collaborators}.

#[local] Instance env_kept_preorder path : PreOrder (env_kept path).
Proof.
  split.
  - intros s. by split.
  - intros s1 s2 s3 [F1 E1] [F2 E2]. split; [congruence |].
    intros Hn. rewrite E2, E1; [done | done |]. by rewrite F1.
Qed.

Lemma isfile_false s path : isfile s path = false -> fs s !! path = None.
Proof.
  unfold isfile. intros H%bool_decide_eq_false.
  destruct (fs s !! path) eqn:E; [| done]. exfalso. apply H. eauto.
Qed.

Lemma load_weights_env_kept best load_buffer s r s' :
  load_weights best load_buffer s = (r, s') ->
  env_kept (path_join (save_dir (cfg s)) "env.json") s s'.
Proof.
  intros H. unfold load_weights in H.
  rewrite run_bind in H. unfold get at 1 in H. cbv beta iota in H.
  set (env_path := path_join (save_dir (cfg s)) "env.json") in *.
  destruct (isfile s _); [| inversion H; subst; reflexivity].
  revert H.
  match goal with |- ?m s = _ -> _ =>
    cut (guarantees (env_kept env_path) m); [intros Hg H; exact (Hg _ _ _ H) |] end.
  assert (Hheap : forall s h, env_kept env_path s (set_heap h s)) by (intros; by split).
  assert (Hoptset : forall s o, env_kept env_path s (set_optimizer o s)) by (intros; by split).
  assert (Hrb : forall s rb, env_kept env_path s (set_replay_buffer rb s)) by (intros; by split).
  assert (Hlast : guarantees (env_kept env_path)
            (get ≫= fun s1 =>
               if isfile s1 env_path then
                 match fs s1 !! env_path with
                 | Some (EnvFile j) => modify (fun s => set_env (env_load (env s) j) s)
                 | _ => raise (CollaboratorError "env.load")
                 end
               else mret tt)).
  { intros s1 r1 s1' H1. rewrite run_bind in H1. unfold get at 1 in H1. cbv beta iota in H1.
    unfold isfile in H1.
    destruct (fs s1 !! env_path) as [f |] eqn:Ef.
    - rewrite bool_decide_eq_true_2 in H1 by eauto.
      destruct f; inversion H1; subst; split; try done; intros; congruence.
    - rewrite bool_decide_eq_false_2 in H1 by (by intros [? ?]).
      inversion H1; subst. reflexivity. }
  unfold rb_load, torch_load, load_state_dict.
  repeat first
    [ apply Hlast
    | guar_apply guar_modify; intros ?; first [apply Hheap | apply Hoptset | apply Hrb]
    | guar_step ].
Qed.


End LoadWeightsTheorem.

(** *** test and evaluate_agent *)

Section TestMode.
Context {C : Collaborators}.

#[local] Instance learned_frame : FrameRel (unchanged learned).
Proof. by apply unchanged_frame. Qed.

Lemma undefined_attr_get_action {A} s :
  undefined_attr (A := A) "get_action" s = (Raise (AttributeError "get_action"), s).
Proof. reflexivity. Qed.

Lemma undefined_attr_num_test_episodes {A} s :
  undefined_attr (A := A) "num_test_episodes" s
  = (Raise (AttributeError "num_test_episodes"), s).
Proof. reflexivity. Qed.

Lemma test_step_raises record l s :
  test_step record l s = (Raise (AttributeError "get_action"), s).
Proof. unfold test_step. by rewrite run_bind, undefined_attr_get_action. Qed.

Lemma test_for_raises n record l s :
  test_for (S n) record l s = (Raise (AttributeError "get_action"), s).
Proof. simpl. by rewrite run_bind, test_step_raises. Qed.

Lemma while_episode_raises fuel record l s :
  ts_done l = false -> ts_ep_len l <> max_ep_len (cfg s) ->
  while_episode (S fuel) (test_step record) l s = (Raise (AttributeError "get_action"), s).
Proof.
  intros Hd Hl. simpl. rewrite run_bind. unfold get at 1. cbv beta iota.
  rewrite Hd, bool_decide_eq_false_2 by done. simpl.
  by rewrite run_bind, test_step_raises.
Qed.

(** The statements of [test] before its loop always return. *)
Lemma test_prologue fuel timesteps render record s :
  exists s0 l0,
    ts_done l0 = false /\ ts_ep_len l0 = 0%Z /\ cfg s0 = cfg s /\
    test fuel timesteps render record s =
    ((l ← match timesteps with
          | Some n => test_for (Z.to_nat n) record l0
          | None => while_episode fuel (test_step record) l0
          end;
      s ← get;
      (if record then
         write_file (path_join (save_dir (cfg s)) "recording.gif")
                    (Recording (even_frames (ts_img l)))
       else mret tt);;
      env_training true;;
      mret (ts_ep_ret l, ts_ep_len l)) s0).
Proof.
  unfold test.
  rewrite run_bind. unfold modify at 1. cbv beta iota.
  rewrite run_bind. unfold modify at 1. cbv beta iota.
  rewrite run_bind. unfold env_training at 1, modify at 1. cbv beta iota.
  rewrite run_bind.
  destruct render.
  - rewrite run_bind. unfold env_render_M at 1. rewrite run_bind. unfold get at 1.
    cbv beta iota. destruct (env_render _ _) as [f e].
    rewrite run_bind. unfold modify at 1. cbv beta iota. rewrite !run_ret.
    rewrite run_bind, env_reset_M_run. cbv beta iota.
    rewrite run_bind. destruct record.
    + rewrite run_bind. unfold env_render_M at 1. rewrite run_bind. unfold get at 1.
      cbv beta iota. destruct (env_render _ _) as [f' e'].
      rewrite run_bind. unfold modify at 1. cbv beta iota. rewrite !run_ret.
      eexists _, _. split_and!; [| | | reflexivity]; reflexivity.
    + rewrite run_ret. eexists _, _. split_and!; [| | | reflexivity]; reflexivity.
  - rewrite run_ret. rewrite run_bind, env_reset_M_run. cbv beta iota.
    rewrite run_bind. destruct record.
    + rewrite run_bind. unfold env_render_M at 1. rewrite run_bind. unfold get at 1.
      cbv beta iota. destruct (env_render _ _) as [f' e'].
      rewrite run_bind. unfold modify at 1. cbv beta iota. rewrite !run_ret.
      eexists _, _. split_and!; [| | | reflexivity]; reflexivity.
    + rewrite run_ret. eexists _, _. split_and!; [| | | reflexivity]; reflexivity.
Qed.

(** C9.  [test] raises [AttributeError] at its first environment step:
    the class defines no [get_action]; [evaluate_agent] raises it before
    its first episode: no statement assigns [num_test_episodes].  No return
    or length is accumulated.  Neither call writes a parameter, the
    optimizer, the replay store or the best mean reward. *)
Theorem test_raises_AttributeError (s : Trainer) (fuel : nat) (render record : bool) :
  (forall n, (0 < n)%Z ->
     (test fuel (Some n) render record s).1 = Raise (AttributeError "get_action")) /\
  (max_ep_len (cfg s) <> 0%Z ->
     (test (S fuel) None render record s).1 = Raise (AttributeError "get_action")) /\
  (evaluate_agent fuel s).1 = Raise (AttributeError "num_test_episodes") /\
  (forall timesteps,
     learned (test fuel timesteps render record s).2 = learned s) /\
  learned (evaluate_agent fuel s).2 = learned s.
Proof.
  split_and!.
  - intros n Hn.
    destruct (test_prologue fuel (Some n) render record s) as (s0 & l0 & _ & _ & _ & ->).
    rewrite run_bind.
    destruct (Z.to_nat n) as [| k] eqn:Hk; [lia |].
    by rewrite test_for_raises.
  - intros Hmax.
    destruct (test_prologue (S fuel) None render record s) as (s0 & l0 & Hd & Hl & Hc & ->).
    rewrite run_bind, while_episode_raises; [done | done |]. rewrite Hl, Hc. congruence.
  - unfold evaluate_agent. rewrite run_bind. unfold env_training at 1, modify at 1.
    cbv beta iota. by rewrite run_bind, undefined_attr_num_test_episodes.
  - intros timesteps.
    destruct (test fuel timesteps render record s) as [r s'] eqn:E.
    eapply (guar_test (unchanged learned)) in E; [exact E | done].
  - destruct (evaluate_agent fuel s) as [r s'] eqn:E.
    eapply (guar_evaluate_agent (unchanged learned)) in E; [exact E | done].
Qed.

End TestMode.

(** *** The episode boundary in learn_one_trial *)

Section Simulation.
Context {C : Collaborators}.

Lemma sim_refl {A} (rho : A -> A -> Prop) (m : M A) :
  (forall a, rho a a) -> sim rho m m.
Proof. intros Hr s. destruct (m s) as [[a | e] s']; by split. Qed.

Lemma sim_ret {A} (rho : A -> A -> Prop) (a1 a2 : A) :
  rho a1 a2 -> sim rho (mret a1) (mret a2).
Proof. intros Hr s. by split. Qed.

Lemma sim_bind {A B} (rho : A -> A -> Prop) (rho' : B -> B -> Prop)
    (m1 m2 : M A) (f1 f2 : A -> M B) :
  sim rho m1 m2 ->
  (forall a1 a2, rho a1 a2 -> sim rho' (f1 a1) (f2 a2)) ->
  sim rho' (m1 ≫= f1) (m2 ≫= f2).
Proof.
  intros Hm Hf s. rewrite !run_bind. specialize (Hm s).
  destruct (m1 s) as [[a1 | e1] s1], (m2 s) as [[a2 | e2] s2]; try done.
  destruct Hm as [Ha ->]. apply (Hf a1 a2 Ha).
Qed.

Lemma sim_bind_eq {A B} (rho' : B -> B -> Prop) (m : M A) (f1 f2 : A -> M B) :
  (forall a, sim rho' (f1 a) (f2 a)) ->
  sim rho' (m ≫= f1) (m ≫= f2).
Proof.
  intros Hf. apply (sim_bind eq); [by apply sim_refl |]. intros a ? <-. apply Hf.
Qed.

End Simulation.

Section Boundary.
Context {C : Collaborators}.

#[local] Existing Instance cfg_frame.

Lemma same_but_state_refl l : same_but_state l l.
Proof. by repeat split. Qed.

(** The first block reads every local variable but [state]. *)
Lemma step_act_sim timestep l l' :
  same_but_state l l' ->
  sim (fun x x' => same_but_state x.1 x'.1 /\ x.2 = x'.2)
      (step_act timestep l) (step_act timestep l').
Proof.
  intros (He & Ho & Hr & Hl & Hc & Ht & Hco & Hep & Hol).
  unfold step_act. rewrite He, Ho, Hr, Hl, Hc, Ht, Hco, Hep, Hol.
  apply sim_bind_eq. intros self.
  apply sim_bind_eq. intros [[co col] ols].
  apply sim_bind_eq. intros action.
  apply sim_bind_eq. intros [[next_obs reward] done].
  apply sim_bind_eq. intros _.
  apply sim_bind_eq. intros term.
  apply sim_ret. by repeat split.
Qed.

(** The third block reads every local variable but [state]. *)
Lemma step_episode_end_sim trial_num l l' done :
  same_but_state l l' ->
  sim same_flow (step_episode_end trial_num l done) (step_episode_end trial_num l' done).
Proof.
  intros Hs. pose proof Hs as (He & Ho & Hr & Hl & Hc & Ht & Hco & Hep & Hol).
  unfold step_episode_end. rewrite He, Ho, Hr, Hl, Hc, Ht, Hco, Hep, Hol.
  apply sim_bind_eq. intros self.
  destruct (done || bool_decide (ep_len l' = max_ep_len (cfg self))).
  - apply sim_refl. intros [x | x]; apply same_but_state_refl.
  - by apply sim_ret.
Qed.

Lemma learn_step_sim trial_num timestep l l' :
  same_but_state l l' ->
  sim same_flow (learn_step trial_num timestep l) (learn_step trial_num timestep l').
Proof.
  intros Hs. unfold learn_step.
  eapply sim_bind; [by apply step_act_sim |].
  intros [l1 d] [l1' d'] [Hs1 Hd]. simpl in Hs1, Hd. subst d'.
  apply sim_bind_eq. intros _. by apply step_episode_end_sim.
Qed.

(** The third block, when it returns: the local variables it hands on. *)
Lemma step_episode_end_inv trial_num l done s f s' :
  step_episode_end trial_num l done s = (Ok f, s') ->
  if done || bool_decide (ep_len l = max_ep_len (cfg s)) then
    exists l2, (f = Continue l2 \/ f = Return l2) /\
      l2 = mkLocals (epsilon l) (obs l) 0 0 (curr_op_len l) (option_termination l)
             (current_option l) (episode l + 1) empty_option_lengths
             (Some (env_reset (env s)).1)
  else f = Continue l /\ s' = s.
Proof.
  intros H. unfold step_episode_end in H.
  rewrite run_bind in H. unfold get at 1 in H. cbv beta iota in H.
  destruct (done || bool_decide (ep_len l = max_ep_len (cfg s))).
  - rewrite run_bind in H. unfold modify at 1 in H. cbv beta iota in H.
    rewrite run_bind, env_reset_M_run in H. cbv beta iota in H.
    cbn [env set_logger] in H.
    rewrite run_bind in H. unfold get at 1 in H. cbv beta iota in H.
    destruct (logger_load_results _ _) as [x y].
    bind_inv H. eexists. split; [| reflexivity].
    destruct a.
    + inversion H. by right.
    + bind_inv H. inversion H. by left.
  - inversion H. by split.
Qed.

End Boundary.

Section BoundaryTheorem.
Context {C : Collaborators}.

#[local] Instance cfg_env_frame : FrameRel (unchanged (fun s => (cfg s, env s))).
Proof. by apply unchanged_frame. Qed.

Lemma step_update_cfg_env timestep :
  guarantees (unchanged (fun s => (cfg s, env s))) (step_update timestep).
Proof.
  apply guar_step_update; [apply _ | |].
  - intros. apply guar_optimizer_update_store; [apply _ | done | done].
  - apply guar_update_target_network_store; [apply _ | done].
Qed.

(** One iteration that returns, in full: what it computes from [obs l], and
    the local variables it hands to the next iteration. *)
Lemma learn_step_inv trial_num timestep l s f s' :
  learn_step trial_num timestep l s = (Ok f, s') ->
  let W := weights (heap s) (oc s) in
  let b := net_training (oc s) in
  let eps := update_epsilon s (epsilon l) (IZR timestep) in
  exists opt g1 a g2 nobs reward done e1 term g3 l2,
    (if option_termination l
     then get_option W b (obs l) eps (rng s) = (opt, g1)
     else opt = current_option l /\ g1 = rng s) /\
    get_action W b (obs l) opt g1 = (a, g2) /\
    env_step a (env s) = ((nobs, reward, done), e1) /\
    predict_option_termination W b nobs opt g2 = (term, g3) /\
    (f = Continue l2 \/ f = Return l2) /\
    obs l2 = nobs /\ option_termination l2 = term /\ current_option l2 = opt /\
    curr_op_len l2 = (if option_termination l then 0%Z else curr_op_len l) /\
    if (if bool_decide (ep_len l + 1 = max_ep_len (cfg s))%Z then false else done)
       || bool_decide (ep_len l + 1 = max_ep_len (cfg s))%Z
    then ep_ret l2 = 0 /\ ep_len l2 = 0%Z /\ episode l2 = (episode l + 1)%Z /\
         state l2 = Some (env_reset e1).1
    else f = Continue l2 /\ ep_ret l2 = ep_ret l + reward /\
         ep_len l2 = (ep_len l + 1)%Z /\ episode l2 = episode l /\ state l2 = state l.
Proof.
  intros H W b eps. unfold learn_step in H.
  apply bind_Ok_inv in H as ([l1 d] & s1 & Hact & H). cbv beta iota in H.
  apply bind_Ok_inv in H as ([] & s2 & Hupd & Hend).
  apply step_act_inv in Hact
    as [(? & _) | (opt & g1 & a & g2 & nobs & reward & done & e1 & term & g3 & lens' &
                   Hopt & Ha & He & Hp & Hs1 & Hr)]; [discriminate |].
  inversion Hr; subst l1 d; clear Hr.
  apply step_update_cfg_env in Hupd. unfold unchanged in Hupd.
  assert (Hcfg : cfg s2 = cfg s) by (rewrite Hs1 in Hupd; by inversion Hupd).
  assert (Henv : env s2 = e1) by (rewrite Hs1 in Hupd; by inversion Hupd).
  apply step_episode_end_inv in Hend. rewrite Hcfg, Henv in Hend. cbn [ep_len] in Hend.
  assert (Hopt' : if option_termination l
                  then get_option W b (obs l) eps (rng s) = (opt, g1)
                  else opt = current_option l /\ g1 = rng s).
  { destruct (option_termination l); [by destruct Hopt | by destruct Hopt as (? & ? & _)]. }
  exists opt, g1, a, g2, nobs, reward, done, e1, term, g3.
  destruct (_ || _) eqn:Hended.
  - destruct Hend as (l2 & Hf & Hl2). exists l2.
    split_and!; [exact Hopt' | exact Ha | exact He | exact Hp | exact Hf | ..];
      subst l2; reflexivity.
  - destruct Hend as [Hf _]. eexists.
    split_and!; [exact Hopt' | exact Ha | exact He | exact Hp | left; exact Hf | ..];
      first [reflexivity | exact Hf].
Qed.

(** C10.  The iteration that ends an episode hands on, as [obs], the last
    observation of that episode, and binds the observation of
    [env.reset()] to [state]; [option_termination] and [curr_op_len] are
    what any other iteration would leave.  Every iteration chooses its
    option and its action from [obs] and stores a transition that starts at
    [obs]; none reads [state].  So the first transition of the next episode
    starts at the last observation of the episode before. *)
Theorem episode_boundary_keeps_observation :
  (forall trial_num timestep l s f s',
     learn_step trial_num timestep l s = (Ok f, s') ->
     exists opt g1 a g2 nobs reward done e1 term g3 l2,
       (if option_termination l
        then get_option (weights (heap s) (oc s)) (net_training (oc s)) (obs l)
               (update_epsilon s (epsilon l) (IZR timestep)) (rng s) = (opt, g1)
        else opt = current_option l /\ g1 = rng s) /\
       get_action (weights (heap s) (oc s)) (net_training (oc s)) (obs l) opt g1 = (a, g2) /\
       env_step a (env s) = ((nobs, reward, done), e1) /\
       predict_option_termination (weights (heap s) (oc s)) (net_training (oc s))
         nobs opt g2 = (term, g3) /\
       (f = Continue l2 \/ f = Return l2) /\
       obs l2 = nobs /\ option_termination l2 = term /\ current_option l2 = opt /\
       curr_op_len l2 = (if option_termination l then 0%Z else curr_op_len l) /\
       if (if bool_decide (ep_len l + 1 = max_ep_len (cfg s))%Z then false else done)
          || bool_decide (ep_len l + 1 = max_ep_len (cfg s))%Z
       then ep_ret l2 = 0 /\ ep_len l2 = 0%Z /\ episode l2 = (episode l + 1)%Z /\
            state l2 = Some (env_reset e1).1
       else f = Continue l2 /\ ep_ret l2 = ep_ret l + reward /\
            ep_len l2 = (ep_len l + 1)%Z /\ episode l2 = episode l /\ state l2 = state l) /\
  (forall trial_num timestep l s r s',
     learn_step trial_num timestep l s = (r, s') ->
     (r = Raise KeyError /\ replay_buffer s' = replay_buffer s) \/
     exists a opt nobs reward done e1,
       env_step a (env s) = ((nobs, reward, done), e1) /\
       replay_buffer s' =
         rb_append (mkTransition (obs l) opt reward nobs
                      (if bool_decide (ep_len l + 1 = max_ep_len (cfg s))%Z
                       then false else done))
                   (replay_buffer s)) /\
  (forall trial_num timestep l l',
     same_but_state l l' ->
     sim same_flow (learn_step trial_num timestep l) (learn_step trial_num timestep l')) /\
  (forall trial_num timestep timestep' l s l2 s2 r s3,
     learn_step trial_num timestep l s = (Ok (Continue l2), s2) ->
     episode l2 = (episode l + 1)%Z ->
     learn_step trial_num timestep' l2 s2 = (r, s3) ->
     exists a nobs reward done e1,
       env_step a (env s) = ((nobs, reward, done), e1) /\
       state l2 = Some (env_reset e1).1 /\
       obs l2 = nobs /\
       ((r = Raise KeyError /\ replay_buffer s3 = replay_buffer s2) \/
        exists tr, replay_buffer s3 = rb_append tr (replay_buffer s2) /\ t_obs tr = nobs)).
Proof.
  split_and!.
  - intros trial_num timestep l s f s' H. exact (learn_step_inv _ _ _ _ _ _ H).
  - intros trial_num timestep l s r s' H. exact (learn_step_stores _ _ _ _ _ _ H).
  - intros trial_num timestep l l' H. by apply learn_step_sim.
  - intros trial_num timestep timestep' l s l2 s2 r s3 H1 Hep H2.
    destruct (learn_step_inv _ _ _ _ _ _ H1)
      as (opt & g1 & a & g2 & nobs & reward & done & e1 & term & g3 & l2' &
          _ & _ & He & _ & Hf & Hobs & _ & _ & _ & Hcase).
    assert (l2' = l2) as -> by (destruct Hf as [Hf | Hf]; by inversion Hf).
    exists a, nobs, reward, done, e1. split; [exact He |].
    destruct (_ || _).
    + destruct Hcase as (_ & _ & _ & Hst). split_and!; [done | done |].
      apply learn_step_stores in H2
        as [? | (a' & opt' & nobs' & reward' & done' & e1' & _ & Hrb)]; [by left |].
      right. eexists. split; [exact Hrb |]. by rewrite <- Hobs.
    + destruct Hcase as (_ & _ & _ & Hep' & _). lia.
Qed.

End BoundaryTheorem.

(** *** The optimizer and the target network *)

Section Store.
Context {C : Collaborators}.

Lemma alloc_spec (ps : list Param) (h : gmap nat Param) (n : nat) ids h' n' :
  alloc ps h n = (ids, h', n') ->
  ids = seq n (length ps) /\ n' = (n + length ps)%nat /\
  (forall k p, ps !! k = Some p -> h' !! (n + k)%nat = Some p) /\
  (forall id, (id < n)%nat -> h' !! id = h !! id).
Proof.
  revert h n ids h' n'. induction ps as [| p ps IH]; intros h n ids h' n' H; simpl in H.
  - inversion H; subst. split_and!; [done | simpl; lia | | done].
    intros k p Hk. by rewrite lookup_nil in Hk.
  - destruct (alloc ps (<[n:=p]> h) (S n)) as [[ids0 h0] n0] eqn:E.
    inversion H; subst. destruct (IH _ _ _ _ _ E) as (-> & -> & Hl & Hold).
    split_and!; [done | simpl; lia | |].
    + intros [| k] q Hk; simpl in Hk.
      * inversion Hk; subst. rewrite Nat.add_0_r, Hold by lia. apply lookup_insert_eq.
      * replace (n + S k)%nat with (S n + k)%nat by lia. by apply Hl.
    + intros id Hid. rewrite Hold by lia. apply lookup_insert_ne. lia.
Qed.

Lemma freeze_spec (ids : list nat) (h : gmap nat Param) (id : nat) q :
  h !! id = Some q -> id ∈ ids \/ requires_grad q = false ->
  exists q', foldl (fun h id => alter (fun p => mkParam (p_data p) false) id h) h ids !! id
             = Some q' /\ requires_grad q' = false.
Proof.
  revert h q. induction ids as [| a ids IH]; intros h q Hq Hcase; simpl.
  - destruct Hcase as [Hin | Hf]; [by apply elem_of_nil in Hin | eauto].
  - destruct (decide (a = id)) as [-> | Hne].
    + eapply IH; [by rewrite lookup_alter_eq, Hq | by right].
    + eapply IH; [by rewrite lookup_alter_ne, Hq |].
      destruct Hcase as [Hin | Hf]; [| by right].
      apply elem_of_cons in Hin as [-> | Hin]; [done | by left].
Qed.

Lemma foldl_alter_flags (f : list R -> Param -> Param) (pairs : list (nat * list R))
    (h : gmap nat Param) (id : nat) :
  (forall v q, requires_grad (f v q) = requires_grad q) ->
  requires_grad <$> (foldl (fun h idv => alter (f idv.2) idv.1 h) h pairs !! id)
  = requires_grad <$> (h !! id).
Proof.
  intros Hf. revert h. induction pairs as [| [i v] pairs IH]; intros h; simpl; [done |].
  rewrite IH. destruct (decide (i = id)) as [-> | Hne].
  - rewrite lookup_alter_eq. destruct (h !! id); simpl; [| done]. by rewrite Hf.
  - by rewrite lookup_alter_ne.
Qed.

#[local] Instance data_write_preorder : PreOrder data_write.
Proof.
  split.
  - intros s. by repeat split.
  - intros s1 s2 s3 (A1 & B1 & C1 & D1) (A2 & B2 & C2 & D2).
    split_and!; first [congruence | intros id; by rewrite D2, D1].
Qed.

#[local] Instance data_write_frame : FrameRel data_write.
Proof. split; try apply _; intros; by repeat split. Qed.

Lemma data_write_alter s id (f : Param -> Param) :
  (forall q, requires_grad (f q) = requires_grad q) ->
  data_write s (set_heap (alter f id (heap s)) s).
Proof.
  intros Hf. split_and!; try done. intros i. cbn [heap set_heap].
  destruct (decide (id = i)) as [-> | Hne].
  - rewrite lookup_alter_eq. destruct (heap s !! i); simpl; [| done]. by rewrite Hf.
  - by rewrite lookup_alter_ne.
Qed.

Lemma data_write_optimizer_update before e :
  guarantees data_write (optimizer_update before e).
Proof.
  unfold optimizer_update. guar_step; [guar_step |].
  destruct (optimizer_step _ _ _ _ _ _) as [vals st].
  guar_step; [| guar_apply guar_modify; intros s; by repeat split].
  guar_apply guar_modify. intros s. split_and!; try done. intros id.
  cbn [heap set_heap].
  apply (foldl_alter_flags (fun v q => if requires_grad q then mkParam v true else q)).
  intros v q. by destruct (requires_grad q) eqn:E.
Qed.

Lemma data_write_update_target_network : guarantees data_write update_target_network.
Proof.
  unfold update_target_network, mul_, add_.
  repeat first
    [ guar_apply guar_modify; intros ?; by apply data_write_alter
    | guar_step ].
Qed.

Lemma data_write_load_state_dict net sd : guarantees data_write (load_state_dict net sd).
Proof.
  unfold load_state_dict. guar_step; [guar_step |].
  destruct (same_shapes _ _); [| guar_step].
  guar_apply guar_modify. intros s. split_and!; try done. intros id.
  cbn [heap set_heap].
  by apply (foldl_alter_flags (fun v q => mkParam v (requires_grad q))).
Qed.

Lemma optimizer_inv_data_write s s' :
  optimizer_inv s -> data_write s s' -> optimizer_inv s'.
Proof.
  intros [Hopt Htarg] (Hoc & Htg & Hop & Hfl). split; [congruence |].
  intros id Hid. rewrite Htg in Hid. destruct (Htarg id Hid) as (Hnot & q & Hq & Hfz).
  split; [by rewrite Hoc |].
  specialize (Hfl id). rewrite Hq in Hfl. simpl in Hfl.
  destruct (heap s' !! id) as [q' |]; [| discriminate].
  exists q'. split; [done |]. simpl in Hfl. congruence.
Qed.

(** The optimizer step does not touch what the target network holds. *)
Lemma optimizer_update_target_data before e s :
  optimizer_inv s ->
  target_data (optimizer_update before e s).2 = target_data s.
Proof.
  intros [Hopt Htarg]. unfold optimizer_update.
  rewrite run_bind. unfold get at 1. cbv beta iota.
  destruct (optimizer_step _ _ _ _ _ _) as [vals st].
  rewrite run_bind. unfold modify at 1. cbv beta iota. unfold modify. cbn [snd].
  unfold target_data. cbn [oc_targ heap set_optimizer set_heap]. f_equal.
  apply weights_ext. intros id Hid.
  apply (foldl_alter_other (fun v q => if requires_grad q then mkParam v true else q)).
  intros Hin%fst_zip_subseteq. rewrite Hopt in Hin. by apply (Htarg id Hid).
Qed.

End Store.

Section Discipline.
Context {C : Collaborators}.

#[local] Existing Instance data_write_frame.

Lemma optimizer_inv_ext s s' :
  opt_params (optimizer s') = opt_params (optimizer s) ->
  net_params (oc s') = net_params (oc s) ->
  net_params (oc_targ s') = net_params (oc_targ s) ->
  heap s' = heap s ->
  optimizer_inv s -> optimizer_inv s'.
Proof.
  intros Ho Hoc Ht Hh [H1 H2]. split; [congruence |].
  intros id. rewrite Ht, Hoc, Hh. apply H2.
Qed.

(** The networks built by [__init__] and by [reinit_network]: the target
    is a copy made of new objects, all frozen. *)
Lemma networks_block_run (k : M unit) s :
  exists s1,
    (new_option_critic ≫= fun net => modify (set_oc net) ≫= fun _ =>
     deepcopy net ≫= fun targ => modify (set_oc_targ targ) ≫= fun _ =>
     freeze targ ≫= fun _ => k) s = k s1 /\
    (forall id, (id ∈ net_params (oc_targ s1)) ->
       (id ∉ net_params (oc s1)) /\
       exists q, heap s1 !! id = Some q /\ requires_grad q = false).
Proof.
  destruct (new_option_critic_run s) as (ps & g & ids & h & n & _ & Ha1 & Hnew).
  rewrite run_bind, Hnew. cbv beta iota.
  rewrite run_bind. unfold modify at 1. cbv beta iota.
  rewrite run_bind.
  match goal with |- context [deepcopy ?net ?st] =>
    destruct (deepcopy_run net st) as (ids' & h' & n' & Ha2 & Hcopy) end.
  rewrite Hcopy. cbv beta iota.
  rewrite run_bind. unfold modify at 1. cbv beta iota.
  rewrite run_bind. unfold freeze at 1, modify at 1. cbv beta iota.
  eexists. split; [reflexivity |].
  cbn [oc oc_targ heap net_params set_heap set_oc_targ set_next_id set_oc set_rng] in *.
  apply alloc_spec in Ha1 as (-> & -> & _ & _).
  apply alloc_spec in Ha2 as (-> & _ & Hl2 & _).
  rewrite length_fmap, length_seq in *.
  cbn [next_id set_oc set_rng set_next_id set_heap] in *.
  intros id [Hge Hlt]%elem_of_seq. split.
  - intros [_ Hlt']%elem_of_seq. lia.
  - destruct (lookup_lt_is_Some_2
                ((fun id => h !!! id) <$> seq (next_id s) (length ps))
                (id - (next_id s + length ps))%nat) as [p Hp].
    { rewrite length_fmap, length_seq. lia. }
    apply Hl2 in Hp.
    replace (next_id s + length ps + (id - (next_id s + length ps)))%nat with id in Hp by lia.
    eapply freeze_spec; [exact Hp |]. left. apply elem_of_seq. lia.
Qed.

Lemma reinit_network_inv s : optimizer_inv (reinit_network s).2.
Proof.
  unfold reinit_network. rewrite run_bind. unfold modify at 1. cbv beta iota.
  match goal with |- context [(new_option_critic ≫= ?f) ?st] =>
    destruct (networks_block_run
      (modify (fun s => set_replay_buffer (ReplayBuffer_new (replay_size (cfg s))) s) ≫= fun _ =>
       modify (fun s => set_optimizer
                 (mkOptimizer (net_params (oc s)) (optimizer_new (lr (cfg s)))) s)) st)
      as (s1 & Hrun & Hinv) end.
  rewrite Hrun. rewrite run_bind. unfold modify. cbv beta iota. cbn [snd].
  split; [reflexivity |]. exact Hinv.
Qed.

Lemma init_inv args env0 logger0 rng0 fs0 :
  optimizer_inv (init args env0 logger0 rng0 fs0).
Proof.
  unfold init, init_body.
  match goal with |- context [(new_option_critic ≫= ?f) ?st] =>
    destruct (networks_block_run
      (modify (fun s => set_replay_buffer (ReplayBuffer_new (replay_size (cfg s))) s) ≫= fun _ =>
       modify (fun s => set_optimizer
                 (mkOptimizer (net_params (oc s)) (optimizer_new (lr (cfg s)))) s) ≫= fun _ =>
       modify (set_best_mean_reward NegInf)) st)
      as (s1 & Hrun & Hinv) end.
  rewrite Hrun. rewrite !run_bind. unfold modify. cbv beta iota. cbn [snd].
  split; [reflexivity |]. exact Hinv.
Qed.

Context (restore reinit : bool).

#[local] Instance target_discipline_preorder : PreOrder (target_discipline restore reinit).
Proof.
  split.
  - intros s Hinv. split; [done |]. by apply th_same.
  - intros s1 s2 s3 H12 H23 Hinv.
    destruct (H12 Hinv) as [Hinv2 T12]. destruct (H23 Hinv2) as [Hinv3 T23].
    split; [done |]. by eapply th_trans.
Qed.

Lemma target_discipline_same s s' :
  opt_params (optimizer s') = opt_params (optimizer s) ->
  net_params (oc s') = net_params (oc s) ->
  net_params (oc_targ s') = net_params (oc_targ s) ->
  heap s' = heap s ->
  target_discipline restore reinit s s'.
Proof.
  intros Ho Hoc Ht Hh Hinv. split; [by eapply optimizer_inv_ext |].
  apply th_same. unfold target_data, weights. by rewrite Ht, Hh.
Qed.

#[local] Instance target_discipline_frame : FrameRel (target_discipline restore reinit).
Proof. split; try apply _; intros; by apply target_discipline_same. Qed.

Lemma discipline_optimizer_update before e :
  guarantees (target_discipline restore reinit) (optimizer_update before e).
Proof.
  intros s r s' H Hinv. split.
  - eapply optimizer_inv_data_write; [exact Hinv |].
    by eapply data_write_optimizer_update.
  - apply th_same. rewrite <- (optimizer_update_target_data before e s Hinv).
    by rewrite H.
Qed.

Lemma discipline_update_target_network :
  guarantees (target_discipline restore reinit) update_target_network.
Proof.
  intros s r s' H Hinv. split.
  - eapply optimizer_inv_data_write; [exact Hinv |].
    by eapply data_write_update_target_network.
  - replace s' with (update_target_network s).2 by (by rewrite H). apply th_polyak.
Qed.

Lemma discipline_reinit_network :
  reinit = true -> guarantees (target_discipline restore reinit) reinit_network.
Proof.
  intros Hr s r s' H Hinv.
  replace s' with (reinit_network s).2 by (by rewrite H). split.
  - apply reinit_network_inv.
  - by apply th_reinit.
Qed.

End Discipline.

Section DisciplineOfCalls.
Context {C : Collaborators}.

#[local] Existing Instance data_write_frame.
#[local] Existing Instance target_discipline_preorder.
#[local] Existing Instance target_discipline_frame.

(** [load_weights] writes the target through [load_state_dict] only. *)
Lemma discipline_load_weights reinit best load_buffer :
  guarantees (target_discipline true reinit) (load_weights best load_buffer).
Proof.
  intros s r s' H. unfold load_weights in H.
  rewrite run_bind in H. unfold get at 1 in H. cbv beta iota in H.
  destruct (isfile s _); [| inversion H; subst; reflexivity].
  set (G' := fun s1 s1' : Trainer =>
    oc s1 = oc s /\ oc_targ s1 = oc_targ s ->
    oc s1' = oc s /\ oc_targ s1' = oc_targ s /\ target_discipline true reinit s1 s1').
  assert (HG' : PreOrder G').
  { split.
    - intros s1 [? ?]. split_and!; [done | done | reflexivity].
    - intros s1 s2 s3 H12 H23 Hn. destruct (H12 Hn) as (? & ? & T12).
      destruct (H23 (conj H0 H1)) as (? & ? & T23).
      split_and!; [done | done | by etransitivity]. }
  assert (Hsame : forall s1 s1',
            oc s1' = oc s1 -> oc_targ s1' = oc_targ s1 -> heap s1' = heap s1 ->
            opt_params (optimizer s1') = opt_params (optimizer s1) -> G' s1 s1').
  { intros s1 s1' Ho Ht Hh Hp [? ?]. split_and!; [congruence | congruence |].
    apply target_discipline_same; congruence. }
  revert H.
  match goal with |- ?m s = _ -> _ =>
    cut (guarantees G' m);
      [intros Hg H; by apply (Hg _ _ _ H) |] end.
  assert (Hoc : forall sd, guarantees G' (load_state_dict (oc s) sd)).
  { intros sd s1 r1 s1' H1 [Ho Ht].
    pose proof (data_write_load_state_dict _ _ _ _ _ H1) as Hdw.
    unfold load_state_dict in H1. rewrite run_bind in H1. unfold get at 1 in H1.
    cbv beta iota in H1.
    destruct (same_shapes _ _).
    - inversion H1; subst r1 s1'; clear H1. split_and!; [done | done |].
      intros Hinv. split; [by eapply optimizer_inv_data_write |].
      apply th_same. unfold target_data. cbn [oc_targ heap set_heap]. f_equal.
      apply weights_ext. intros id Hid.
      apply (foldl_alter_other (fun v q => mkParam v (requires_grad q))).
      intros Hin%fst_zip_subseteq. destruct Hinv as [_ Hinv].
      rewrite <- Ho in Hin. by apply (Hinv id Hid).
    - inversion H1; subst. split_and!; [done | done | reflexivity]. }
  assert (Htarg : forall sd, guarantees G' (load_state_dict (oc_targ s) sd)).
  { intros sd s1 r1 s1' H1 [Ho Ht].
    pose proof (data_write_load_state_dict _ _ _ _ _ H1) as Hdw.
    assert (Hs1' : s1' = (load_state_dict (oc_targ s1) sd s1).2) by (by rewrite Ht, H1).
    assert (Hnets : oc s1' = oc s1 /\ oc_targ s1' = oc_targ s1).
    { unfold load_state_dict in H1. rewrite run_bind in H1. unfold get at 1 in H1.
      cbv beta iota in H1.
      destruct (same_shapes _ _); inversion H1; by subst. }
    destruct Hnets as [? ?]. split_and!; [congruence | congruence |].
    intros Hinv. split; [by eapply optimizer_inv_data_write |].
    rewrite Hs1'. by apply th_restore. }
  unfold rb_load, torch_load.
  repeat first
    [ apply Hoc | apply Htarg
    | guar_apply guar_modify; intros ?; by apply Hsame
    | guar_step ].
Qed.

Lemma discipline_run_call c :
  guarantees (target_discipline (restores c) (replaces c)) (run_call c).
Proof.
  assert (Happ : forall r i s tr, target_discipline r i s
            (set_replay_buffer (rb_append tr (replay_buffer s)) s)).
  { intros. by apply target_discipline_same. }
  assert (Hbest : forall r i s m, float_gtb (Some m) (best_mean_reward s) = true ->
            target_discipline r i s (set_best_mean_reward (Fin m) s)).
  { intros. by apply target_discipline_same. }
  assert (Henv : forall r i s e, target_discipline r i s (set_env e s)).
  { intros. by apply target_discipline_same. }
  destruct c; cbn [run_call restores replaces].
  - by apply discipline_reinit_network.
  - apply discipline_update_target_network.
  - apply guar_sac_update;
      [apply _ | intros; apply discipline_optimizer_update
       | apply discipline_update_target_network].
  - apply guar_evaluate_agent; [apply _ | apply Henv].
  - apply guar_save_weights. apply _.
  - apply discipline_load_weights.
  - apply guar_learn_one_trial;
      [apply _ | intros; apply discipline_optimizer_update
       | apply discipline_update_target_network | apply Happ | apply Hbest | apply Henv].
  - apply guar_learn;
      [apply _ | intros; apply discipline_optimizer_update
       | apply discipline_update_target_network | apply Happ | apply Hbest | apply Henv
       | by apply discipline_reinit_network].
  - guar_step; [| guar_step]. apply guar_test; [apply _ | apply Henv].
Qed.

Lemma reachable_inv s : reachable s -> optimizer_inv s.
Proof.
  induction 1 as [args env0 logger0 rng0 fs0 | c s Hs IH].
  - apply init_inv.
  - unfold after. destruct (run_call c s) as [r s'] eqn:E.
    by apply (discipline_run_call c s r s' E).
Qed.


End DisciplineOfCalls.

(** *** update_epsilon *)

Section Epsilon.
Context {C : Collaborators}.

Lemma exp_le_mono (x y : R) : x <= y -> exp x <= exp y.
Proof.
  intros [Hlt | ->]; [left; by apply exp_increasing | right; reflexivity].
Qed.

Lemma exp_nonpos_le_1 (x : R) : x <= 0 -> exp x <= 1.
Proof. intros H. rewrite <- exp_0. by apply exp_le_mono. Qed.

Lemma neg_div_nonpos (t d : R) : 0 <= t -> 0 < d -> - t / d <= 0.
Proof.
  intros Ht Hd. unfold Rdiv.
  assert (0 < / d) by (by apply Rinv_0_lt_compat). nra.
Qed.

Lemma neg_div_antitone (t t' d : R) : t <= t' -> 0 < d -> - t' / d <= - t / d.
Proof.
  intros Ht Hd. unfold Rdiv.
  assert (0 < / d) by (by apply Rinv_0_lt_compat). nra.
Qed.

(* exp (-x) < 1/x for x > 0 *)
Lemma exp_neg_lt_inv (x : R) : 0 < x -> exp (- x) < / x.
Proof.
  intros Hx. rewrite exp_Ropp.
  apply Rinv_lt_contravar.
  - apply Rmult_lt_0_compat; [done | apply exp_pos].
  - assert (1 + x < exp x) by (apply exp_ineq1; lra). lra.
Qed.

End Epsilon.

(** *** sac_update returns on well-shaped batches *)

Section SacReturns.
Context {C : Collaborators} {S : ShapeLaws}.

Lemma elementwise_intro (f : R -> R -> R) (a b : list R) :
  length a = length b -> elementwise f a b = Ok (zip_with f a b).
Proof. intros H. unfold elementwise. by rewrite decide_True. Qed.

Lemma mapM_intro {A B} (f : A -> result B) (l : list A) :
  Forall (fun x => exists y, f x = Ok y) l ->
  exists k, mapM f l = Ok k /\ length k = length l.
Proof.
  induction 1 as [| x l [y Hy] _ (k & Hk & Hl)]; simpl.
  - by exists [].
  - exists (y :: k). rewrite Hy. simpl. rewrite Hk. simpl. split; [done | by rewrite Hl].
Qed.

Lemma gather_intro (m : list (list R)) (opts : list nat) (n : nat) :
  length m = length opts ->
  Forall (fun row => length row = n) m ->
  Forall (fun o => (o < n)%nat) opts ->
  exists v, gather m (arange (length opts)) opts = Ok v /\ length v = length opts.
Proof.
  intros Hlen Hrows Hopts. unfold gather.
  rewrite decide_True by (unfold arange; by rewrite length_seq).
  destruct (mapM_intro (fun io => index_pair m io.1 io.2) (zip (arange (length opts)) opts))
    as (v & Hv & Hl).
  - apply Forall_lookup. intros k [i o] Hk.
    unfold arange in Hk. apply lookup_zip_with_Some in Hk as (i' & o' & Heq & Hi & Ho).
    inversion Heq; subst i' o'. apply lookup_seq in Hi as [-> Hlt]. simpl.
    destruct (lookup_lt_is_Some_2 m k) as [row Hrow]; [lia |].
    pose proof (Forall_lookup_1 _ _ _ _ Hrows Hrow) as Hr.
    pose proof (Forall_lookup_1 _ _ _ _ Hopts Ho) as Ho'. simpl in Hr, Ho'.
    destruct (lookup_lt_is_Some_2 row o) as [x Hx]; [lia |].
    exists x. unfold index_pair. by rewrite Hrow, Hx.
  - exists v. split; [done |]. rewrite Hl. unfold arange.
    rewrite length_zip_with, length_seq. lia.
Qed.

Lemma max_last_dim_intro (m : list (list R)) (n : nat) :
  Forall (fun row => length row = n) m -> (0 < n)%nat \/ m = [] ->
  exists v, max_last_dim m = Ok v /\ length v = length m.
Proof.
  intros Hrows Hn. unfold max_last_dim. apply mapM_intro.
  destruct Hn as [Hn | ->]; [| constructor].
  eapply Forall_impl; [exact Hrows |]. intros row Hrow. simpl in Hrow.
  destruct row as [| x xs]; [simpl in Hrow; lia |]. simpl. eauto.
Qed.

Lemma rw_ret {A} (Q : A -> Prop) a : Q a -> returns_with Q (mret a).
Proof. intros Ha s. by exists a, s. Qed.

Lemma rw_modify f : returns_with (fun _ => True) (modify f).
Proof. intros s. by exists tt, (f s). Qed.

Lemma rw_get : returns_with (fun _ => True) get.
Proof. intros s. by exists s, s. Qed.

Lemma rw_lift {A} (Q : A -> Prop) (r : result A) a :
  r = Ok a -> Q a -> returns_with Q (lift r).
Proof. intros -> Ha s. by exists a, s. Qed.

Lemma rw_call {A} (Q : A -> Prop) net (f : list (list R) -> bool -> Rng -> A * Rng) :
  (forall W b g, Q (f W b g).1) -> returns_with Q (call net f).
Proof. intros Hf s. rewrite call_run. eexists _, _. split; [reflexivity | apply Hf]. Qed.

Lemma rw_bind {A B} (Q : A -> Prop) (Q' : B -> Prop) (m : M A) (f : A -> M B) :
  returns_with Q m -> (forall a, Q a -> returns_with Q' (f a)) ->
  returns_with Q' (m ≫= f).
Proof.
  intros Hm Hf s. destruct (Hm s) as (a & s1 & E & Ha).
  rewrite run_bind, E. apply (Hf a Ha).
Qed.

Lemma rw_elementwise (f : R -> R -> R) (a b : list R) (n : nat) :
  length a = n -> length b = n ->
  returns_with (fun c => length c = n) (lift (elementwise f a b)).
Proof.
  intros Ha Hb. eapply rw_lift; [apply elementwise_intro; congruence |].
  rewrite length_zip_with. lia.
Qed.

(** With network outputs of the right shapes, columns of one length and
    options in range, the loss computation returns. *)
Lemma sac_losses_returns obs options rewards next_obs done :
  length obs = length options -> length rewards = length options ->
  length next_obs = length options -> length done = length options ->
  Forall (fun o => (o < num_options)%nat) options ->
  returns_with (fun l => length (Q1_u l) = length options /\
                         length (Q2_u l) = length options /\
                         length (q_pi l) = length options)
    (sac_losses (obs, options, rewards, next_obs, done)).
Proof.
  intros Hobs Hrew Hnobs Hdone Hopts. set (B := length options) in *.
  assert (Hn : (0 < num_options)%nat \/ B = 0%nat).
  { destruct options as [| o os]; [by right | left].
    apply Forall_cons in Hopts as [Ho _]. lia. }
  assert (Hmax : forall m : list (list R),
            length m = B -> Forall (fun row => length row = num_options) m ->
            returns_with (fun v => length v = B) (lift (max_last_dim m))).
  { intros m Hl Hrows.
    destruct (max_last_dim_intro m num_options Hrows) as (v & Hv & Hlv).
    - destruct Hn as [? | Hz]; [by left | right].
      rewrite Hz in Hl. by apply nil_length_inv.
    - eapply rw_lift; [exact Hv | congruence]. }
  assert (Hgather : forall m : list (list R),
            length m = B -> Forall (fun row => length row = num_options) m ->
            returns_with (fun v => length v = B)
              (lift (gather m (arange (length options)) options))).
  { intros m Hl Hrows.
    destruct (gather_intro m options num_options Hl Hrows Hopts) as (v & Hv & Hlv).
    eapply rw_lift; [exact Hv | exact Hlv]. }
  unfold sac_losses.
  eapply rw_bind; [apply rw_modify | intros _ _].
  eapply rw_bind; [apply rw_modify | intros _ _].
  eapply rw_bind; [apply rw_get | intros self _].
  eapply (rw_bind (fun z => batch_of z = B)).
  { apply rw_call. intros. by rewrite encode_state_shape. }
  intros states Hstates.
  eapply (rw_bind (fun x => length x.2 = B)).
  { apply rw_call. intros. apply policies_shape. }
  intros [pi logp] Hlogp. simpl in Hlogp.
  eapply (rw_bind (fun m => length m = B /\ Forall (fun row => length row = num_options) m)).
  { apply rw_call. intros. rewrite <- Hnobs. apply get_terminations_shape. }
  intros terms [Ht1 Ht2].
  eapply rw_bind; [by apply Hgather | intros betas Hbetas].
  eapply (rw_bind (fun z => batch_of z = B)).
  { apply rw_call. intros. by rewrite encode_state_shape. }
  intros next_states Hns.
  eapply (rw_bind (fun m => length m = B /\ Forall (fun row => length row = num_options) m)).
  { apply rw_call. intros. rewrite <- Hns. apply Q1_shape. }
  intros nQ1 [HQ1a HQ1b].
  eapply rw_bind; [by apply Hmax | intros nV1 HnV1].
  eapply rw_bind; [by apply Hgather | intros nQ1o HnQ1o].
  eapply rw_bind;
    [apply (rw_elementwise _ _ _ B); [unfold rsub_scalar; by rewrite length_fmap | done] |].
  intros u1a Hu1a.
  eapply rw_bind; [by apply (rw_elementwise _ _ _ B) | intros u1b Hu1b].
  eapply rw_bind; [by apply (rw_elementwise _ _ _ B) | intros u1 Hu1].
  eapply rw_bind;
    [apply (rw_elementwise _ _ _ B);
       [unfold mul_scalar, rsub_scalar; by rewrite !length_fmap | done] |].
  intros b1 Hb1.
  eapply rw_bind; [by apply (rw_elementwise _ _ _ B) | intros Q1u HQ1u].
  eapply (rw_bind (fun m => length m = B /\ Forall (fun row => length row = num_options) m)).
  { apply rw_call. intros. rewrite <- Hns. apply Q2_shape. }
  intros nQ2 [HQ2a HQ2b].
  eapply rw_bind; [by apply Hmax | intros nV2 HnV2].
  eapply rw_bind; [by apply Hgather | intros nQ2o HnQ2o].
  eapply rw_bind;
    [apply (rw_elementwise _ _ _ B); [unfold rsub_scalar; by rewrite length_fmap | done] |].
  intros u2a Hu2a.
  eapply rw_bind; [by apply (rw_elementwise _ _ _ B) | intros u2b Hu2b].
  eapply rw_bind; [by apply (rw_elementwise _ _ _ B) | intros u2 Hu2].
  eapply rw_bind;
    [apply (rw_elementwise _ _ _ B);
       [unfold mul_scalar, rsub_scalar; by rewrite !length_fmap | done] |].
  intros b2 Hb2.
  eapply rw_bind; [by apply (rw_elementwise _ _ _ B) | intros Q2u HQ2u].
  eapply rw_bind; [by apply (rw_elementwise _ _ _ B) | intros qpi Hqpi].
  eapply rw_bind;
    [apply (rw_elementwise _ _ _ B); [unfold scalar_mul; by rewrite length_fmap | done] |].
  intros pl Hpl.
  eapply rw_bind; [by apply (rw_elementwise _ _ _ B) | intros nQo HnQo].
  eapply rw_bind; [by apply (rw_elementwise _ _ _ B) | intros nVo HnVo].
  eapply rw_bind; [by apply (rw_elementwise _ _ _ B) | intros d Hd].
  eapply rw_bind;
    [apply (rw_elementwise _ _ _ B);
       [done | unfold detach, add_scalar; by rewrite length_fmap] |].
  intros t1 Ht1'.
  eapply rw_bind;
    [apply (rw_elementwise _ _ _ B); [done | unfold rsub_scalar; by rewrite length_fmap] |].
  intros t2 Ht2'.
  eapply (rw_bind (fun m => length m = B /\ Forall (fun row => length row = num_options) m)).
  { apply rw_call. intros. rewrite <- Hstates. apply Q1_shape. }
  intros q1 [Hq1a Hq1b].
  eapply rw_bind; [by apply Hgather | intros q1o Hq1o].
  eapply rw_bind; [by apply (rw_elementwise _ _ _ B) | intros e1 He1].
  eapply (rw_bind (fun m => length m = B /\ Forall (fun row => length row = num_options) m)).
  { apply rw_call. intros. rewrite <- Hstates. apply Q2_shape. }
  intros q2 [Hq2a Hq2b].
  eapply rw_bind; [by apply Hgather | intros q2o Hq2o].
  eapply rw_bind; [by apply (rw_elementwise _ _ _ B) | intros e2 He2].
  apply rw_ret. by split_and!.
Qed.

End SacReturns.

(** The concrete instance meets the shape laws, so its loss computation
    returns on the batch of two transitions. *)
Lemma toy_shapes : @ShapeLaws Toy.toy.
Proof.
  refine {| batch_of := fun z : @Latent Toy.toy => length (A := nat) z |}.
  - intros. reflexivity.
  - intros. cbn. by rewrite length_map.
  - intros. cbn. split; [by rewrite length_map |].
    apply Forall_forall. intros row Hrow. apply list_elem_of_In in Hrow.
    apply in_map_iff in Hrow as (? & <- & _). reflexivity.
  - intros. cbn. split; [by rewrite length_map |].
    apply Forall_forall. intros row Hrow. apply list_elem_of_In in Hrow.
    apply in_map_iff in Hrow as (? & <- & _). reflexivity.
  - intros. cbn. split; [by rewrite length_map |].
    apply Forall_forall. intros row Hrow. apply list_elem_of_In in Hrow.
    apply in_map_iff in Hrow as (? & <- & _). reflexivity.
Qed.

Lemma sac_losses_returns_toy :
  returns_with (C := Toy.toy)
    (fun l => length (Q1_u l) = 2%nat /\ length (Q2_u l) = 2%nat /\
              length (q_pi l) = 2%nat)
    (sac_losses (C := Toy.toy) Toy.toy_batch).
Proof.
  apply (sac_losses_returns (C := Toy.toy) (S := toy_shapes)
           [0%nat; 0%nat] [0%nat; 0%nat] [1; 1] [1%nat; 1%nat] [1; 0]);
    try reflexivity.
  repeat constructor.
Qed.

(** *** The theorems at the concrete instance *)





Lemma update_target_network_polyak_witness :
  exists s',
    update_target_network (C := Toy.toy) Toy.toy_trainer = (Ok tt, s') /\
    read_data (heap s') 1%nat
    = zip_with (fun x_targ x => 1 / 2 * x_targ + (1 - 1 / 2) * x) [1; 2] [1; 2].
Proof.
  assert (Hoc : net_params (oc (C := Toy.toy) Toy.toy_trainer) = [0%nat])
    by (vm_compute; reflexivity).
  assert (Htg : net_params (oc_targ (C := Toy.toy) Toy.toy_trainer) = [1%nat])
    by (vm_compute; reflexivity).
  assert (H0 : read_data (heap (C := Toy.toy) Toy.toy_trainer) 0%nat = [1; 2])
    by (vm_compute; reflexivity).
  assert (H1 : read_data (heap (C := Toy.toy) Toy.toy_trainer) 1%nat = [1; 2])
    by (vm_compute; reflexivity).
  destruct (update_target_network_polyak (C := Toy.toy) Toy.toy_trainer)
    as (s' & Hrun & _ & Hval & _).
  - rewrite Htg. apply NoDup_singleton.
  - rewrite Htg, Hoc. intros id ->%list_elem_of_singleton Hin%list_elem_of_singleton.
    discriminate.
  - rewrite Htg, Hoc. constructor; [| constructor]. by rewrite H0, H1.
  - exists s'. split; [exact Hrun |].
    rewrite (Hval 0%nat 0%nat 1%nat) by (by rewrite ?Hoc, ?Htg).
    by rewrite H0, H1.
Defined.



Lemma reinit_resets_best_and_buffer_witness :
  best_mean_reward (after (C := Toy.toy) (Call_sac_update Toy.toy_batch) Toy.toy_trainer)
  = best_mean_reward (C := Toy.toy) Toy.toy_trainer \/
  ExtR_lt (best_mean_reward (C := Toy.toy) Toy.toy_trainer)
          (best_mean_reward (after (C := Toy.toy) (Call_sac_update Toy.toy_batch)
                               Toy.toy_trainer)).
Proof.
  destruct (reinit_resets_best_and_buffer (C := Toy.toy)) as [_ H].
  apply (H (Call_sac_update Toy.toy_batch) Toy.toy_trainer). exact I.
Defined.


Lemma test_raises_AttributeError_witness :
  (test (C := Toy.toy) 1 (Some 1%Z) false false Toy.toy_trainer).1
  = Raise (AttributeError "get_action").
Proof.
  destruct (test_raises_AttributeError (C := Toy.toy) Toy.toy_trainer 1 false false)
    as [H _].
  apply H. lia.
Defined.

Lemma episode_boundary_keeps_observation_witness :
  exists l2 s2,
    learn_step (C := Toy.toy) 1 2 Toy.toy_locals_last Toy.toy_trainer
    = (Ok (Continue l2), s2) /\
    state l2 = Some 0%nat /\ obs l2 = 1%nat /\
    ((learn_step (C := Toy.toy) 1 3 l2 s2).1 = Raise KeyError \/
     exists tr, replay_buffer (learn_step (C := Toy.toy) 1 3 l2 s2).2
                = rb_append tr (replay_buffer s2) /\ t_obs tr = 1%nat).
Proof.
  destruct (episode_boundary_keeps_observation (C := Toy.toy)) as (_ & _ & _ & H).
  destruct (learn_step (C := Toy.toy) 1 2 Toy.toy_locals_last Toy.toy_trainer)
    as [[[l2 | l2] | e] s2] eqn:E;
    [| vm_compute in E; discriminate E | vm_compute in E; discriminate E].
  exists l2, s2. split; [reflexivity |].
  assert (Hep : episode l2 = (episode Toy.toy_locals_last + 1)%Z).
  { vm_compute in E. inversion E. reflexivity. }
  destruct (learn_step (C := Toy.toy) 1 3 l2 s2) as [r s3] eqn:E3.
  destruct (H 1%Z 2%Z 3%Z Toy.toy_locals_last Toy.toy_trainer l2 s2 r s3 E Hep E3)
    as (a & nobs & reward & done & e1 & He & Hst & Hobs & Hcase).
  assert (Hn : nobs = 1%nat) by (vm_compute in He; congruence).
  assert (He1 : e1 = 1%nat) by (vm_compute in He; congruence).
  rewrite Hn in Hobs, Hcase. rewrite He1 in Hst.
  split_and!; [exact Hst | exact Hobs |].
  destruct Hcase as [[Hr _] | Hcase]; [by left | by right].
Defined.
